(** * A shallow embedding of the Pokemon catalog service

    The development models [PokemonService] (pokemon.service.ts): the five
    operations [create], [findAll], [findOne], [update], [remove] and the
    private [handleExceptions], together with the parts of the JavaScript
    runtime and of the Mongoose model API that the service calls.

    Conventions.
    - A JavaScript string is a [string] whose characters are the code units
      U+0000 .. U+00FF (Latin-1).  The host locale is assumed to have no
      special casing rules, so that [toLocaleLowerCase] and [toLowerCase]
      coincide.
    - A JavaScript number is a [number]: the service only ever compares
      numbers with integer ordinals, so a finite double is kept as its integer
      value when it has one and as [Fraction] otherwise.
    - The document store is explicit state, threaded through a state and
      exception monad [M]. *)

From Stdlib Require Import ZArith List String Ascii Bool Lia.
From Stdlib Require Import DecimalString DecimalPos DecimalN.
From Stdlib Require Import Sorting.Sorted Permutation.
Import ListNotations.

Local Open Scope string_scope.
Local Open Scope Z_scope.

(** ** JavaScript strings and numbers *)

Module JS.

Definition code (c : ascii) : Z := Z.of_N (N_of_ascii c).

Definition char (n : Z) : ascii := ascii_of_N (Z.to_N n).

Definition between (lo hi n : Z) : bool := (lo <=? n) && (n <=? hi).

(** Upper-case letters of Latin-1: A-Z, and U+00C0 .. U+00DE without the
    multiplication sign U+00D7. *)
Definition is_upper (c : ascii) : bool :=
  between 65 90 (code c) || between 192 214 (code c) || between 216 222 (code c).

Definition lower_char (c : ascii) : ascii :=
  if is_upper c then char (code c + 32) else c.

(** [String.prototype.toLowerCase] *)
Fixpoint toLowerCase (s : string) : string :=
  match s with
  | EmptyString => EmptyString
  | String c r => String (lower_char c) (toLowerCase r)
  end.

(** [String.prototype.toLocaleLowerCase], in a locale without special casing. *)
Definition toLocaleLowerCase (s : string) : string := toLowerCase s.

(** A string is in lower-case form when it has no upper-case character. *)
Fixpoint is_lower (s : string) : bool :=
  match s with
  | EmptyString => true
  | String c r => negb (is_upper c) && is_lower r
  end.

(** The truthiness of a string: only the empty string is falsy. *)
Definition truthy (s : string) : bool :=
  match s with EmptyString => false | _ => true end.

(** *** Numbers *)

Inductive number :=
| NaN
| Infinity (negative : bool)
| Integer (z : Z)
| Fraction.

Definition isNaN (x : number) : bool :=
  match x with NaN => true | _ => false end.

Definition negate (x : number) : number :=
  match x with
  | NaN => NaN
  | Infinity b => Infinity (negb b)
  | Integer z => Integer (- z)
  | Fraction => Fraction
  end.

(** [binade p q] is the integer part of the base-2 logarithm of [p / q],
    for positive [p] and [q]. *)
Definition binade (p q : Z) : Z :=
  let l := Z.log2 p - Z.log2 q in
  if (if 0 <=? l then q * 2 ^ l <=? p else q <=? p * 2 ^ (- l)) then l else l - 1.

(** The double nearest to the rational [p / q] ([0 <= p], [0 < q]), ties to
    even: 53 bits of precision, least exponent -1074, overflow to infinity
    from 2^1024. *)
Definition toDouble (p q : Z) : number :=
  if p =? 0 then Integer 0 else
  let e := Z.max (binade p q - 52) (-1074) in
  let num := p * 2 ^ Z.max 0 (- e) in
  let den := q * 2 ^ Z.max 0 e in
  let m := num / den in
  let r := num mod den in
  let m' := if 2 * r <? den then m
            else if den <? 2 * r then m + 1
            else if Z.even m then m else m + 1 in
  if (971 <? e) || ((e =? 971) && (m' =? 2 ^ 53)) then Infinity false
  else if 0 <=? e then Integer (m' * 2 ^ e)
  else if m' mod 2 ^ (- e) =? 0 then Integer (m' / 2 ^ (- e))
  else Fraction.

(** The double nearest to [m * 10 ^ k]. *)
Definition toDouble10 (m k : Z) : number :=
  if 0 <=? k then toDouble (m * 10 ^ k) 1 else toDouble m (10 ^ (- k)).

(** White space of the [StringToNumber] grammar, within Latin-1: TAB, LF, VT,
    FF, CR, SP and NBSP. *)
Definition is_space (c : ascii) : bool :=
  between 9 13 (code c) || (code c =? 32) || (code c =? 160).

Fixpoint trimStart (s : string) : string :=
  match s with
  | EmptyString => EmptyString
  | String c r => if is_space c then trimStart r else s
  end.

Fixpoint trimEnd (s : string) : string :=
  match s with
  | EmptyString => EmptyString
  | String c r =>
      match trimEnd r with
      | EmptyString => if is_space c then EmptyString else String c EmptyString
      | t => String c t
      end
  end.

Definition trim (s : string) : string := trimEnd (trimStart s).

(** The value of a digit in a radix up to 16, if the character is one. *)
Definition digit_value (radix : Z) (c : ascii) : option Z :=
  let n := code c in
  let v := if between 48 57 n then n - 48
           else if between 97 102 n then n - 87
           else if between 65 70 n then n - 55
           else 16 in
  if v <? radix then Some v else None.

Definition is_digit (radix : Z) (c : ascii) : bool :=
  match digit_value radix c with Some _ => true | None => false end.

(** Horner evaluation of a string of digits; [None] when a character is not a
    digit of the radix. *)
Fixpoint digits_value (radix : Z) (acc : Z) (s : string) : option Z :=
  match s with
  | EmptyString => Some acc
  | String c r =>
      match digit_value radix c with
      | Some v => digits_value radix (acc * radix + v) r
      | None => None
      end
  end.

(** The longest prefix of decimal digits, and what follows it. *)
Fixpoint span_digits (s : string) : string * string :=
  match s with
  | EmptyString => (EmptyString, EmptyString)
  | String c r =>
      if is_digit 10 c
      then let (d, t) := span_digits r in (String c d, t)
      else (EmptyString, s)
  end.

(** One or more digits of the radix, up to the end of the string. *)
Definition numeral (radix : Z) (s : string) : option Z :=
  match s with
  | EmptyString => None
  | _ => digits_value radix 0 s
  end.

(** [NonDecimalIntegerLiteral]: 0x.., 0o.., 0b.. in either case. *)
Definition radix_literal (s : string) : option Z :=
  match s with
  | String "0" (String c r) =>
      if (code c =? 120) || (code c =? 88) then numeral 16 r
      else if (code c =? 111) || (code c =? 79) then numeral 8 r
      else if (code c =? 98) || (code c =? 66) then numeral 2 r
      else None
  | _ => None
  end.

(** An optional sign. *)
Definition sign (s : string) : bool * string :=
  match s with
  | String "+" r => (false, r)
  | String "-" r => (true, r)
  | _ => (false, s)
  end.

(** [ExponentPart], up to the end of the string; no exponent part is the
    exponent 0. *)
Definition exponent_part (s : string) : option Z :=
  match s with
  | EmptyString => Some 0
  | String c r =>
      if (code c =? 101) || (code c =? 69) then
        let (neg, d) := sign r in
        match numeral 10 d with
        | Some x => Some (if neg then - x else x)
        | None => None
        end
      else None
  end.

(** [StrUnsignedDecimalLiteral] without [Infinity]: mantissa and decimal
    exponent of the literal. *)
Definition decimal_literal (s : string) : option (Z * Z) :=
  let (d1, r1) := span_digits s in
  let (d2, r2) := match r1 with
                  | String "." r => span_digits r
                  | _ => (EmptyString, r1)
                  end in
  match (d1 ++ d2)%string with
  | EmptyString => None
  | ds =>
      match digits_value 10 0 ds, exponent_part r2 with
      | Some m, Some x => Some (m, x - Z.of_nat (String.length d2))
      | _, _ => None
      end
  end.

(** [Number(s)], written [+s] in the service: the [StringToNumber] conversion. *)
Definition toNumber (s : string) : number :=
  match trim s with
  | EmptyString => Integer 0
  | t =>
      match radix_literal t with
      | Some n => toDouble n 1
      | None =>
          let (neg, u) := sign t in
          let x := if String.eqb u "Infinity" then Infinity false
                   else match decimal_literal u with
                        | Some (m, k) => toDouble10 m k
                        | None => NaN
                        end in
          if neg then negate x else x
      end
  end.

(** A string of decimal digits. *)
Fixpoint all_digits (s : string) : bool :=
  match s with
  | EmptyString => true
  | String c r => is_digit 10 c && all_digits r
  end.

(** A term that parses fully as an integer: an optional sign and one or more
    decimal digits. *)
Definition integer_literal (s : string) : bool :=
  let (_, u) := sign s in truthy u && all_digits u.

(** [Number.MAX_SAFE_INTEGER] *)
Definition MAX_SAFE_INTEGER : Z := 2 ^ 53 - 1.

End JS.

(** *** Number to string, and JSON *)

Module JSON.

Definition quote : string := String (JS.char 34) EmptyString.
Definition backslash : string := String (JS.char 92) EmptyString.

(** [String(z)] for an integer below 10^21 in absolute value: plain decimal
    digits with a minus sign for negative numbers. *)
Definition decimal (z : Z) : string := NilZero.string_of_int (Z.to_int z).

Definition hex_digit (n : Z) : ascii :=
  if n <? 10 then JS.char (48 + n) else JS.char (87 + n).

Definition escape_char (c : ascii) : string :=
  let n := JS.code c in
  if n =? 34 then backslash ++ quote
  else if n =? 92 then backslash ++ backslash
  else if n =? 8 then backslash ++ "b"
  else if n =? 12 then backslash ++ "f"
  else if n =? 10 then backslash ++ "n"
  else if n =? 13 then backslash ++ "r"
  else if n =? 9 then backslash ++ "t"
  else if n <? 32 then
    backslash ++ "u00" ++ String (hex_digit (n / 16)) (String (hex_digit (n mod 16)) EmptyString)
  else String c EmptyString.

Fixpoint escape (s : string) : string :=
  match s with
  | EmptyString => EmptyString
  | String c r => escape_char c ++ escape r
  end.

(** The values found in the fields of a document. *)
Inductive value :=
| VString (s : string)
| VNumber (z : Z).

Definition stringify_value (v : value) : string :=
  match v with
  | VString s => quote ++ escape s ++ quote
  | VNumber z => decimal z
  end.

Definition stringify_member (kv : string * value) : string :=
  quote ++ escape (fst kv) ++ quote ++ ":" ++ stringify_value (snd kv).

(** [JSON.stringify] of a flat object, or of [undefined] ([None]); the result
    is what a template literal interpolates. *)
Definition stringify (o : option (list (string * value))) : string :=
  match o with
  | None => "undefined"
  | Some members => "{" ++ String.concat "," (map stringify_member members) ++ "}"
  end.

End JSON.

(** ** Data: the entity and the transfer objects *)

(** Modelled from the spec: entities/pokemon.entity.ts is not part of the
    sources.  A record has a name, an ordinal [no] and the identifier [_id]
    assigned by the store; [__v] is the version key Mongoose adds to every
    document.  The same record stands for the document and for its [toJSON]
    image. *)
Module Pokemon.
Record t := { _id : string; name : string; no : Z; __v : Z }.
End Pokemon.

(** dto/create-pokemon.dto.ts *)
Module CreatePokemonDto.
Record t := { name : string; no : Z }.
End CreatePokemonDto.

(** Modelled from the spec: dto/update-pokemon.dto.ts is not part of the
    sources; a partial update carries an optional name and an optional
    ordinal.  [None] is an absent property. *)
Module UpdatePokemonDto.
Record t := { name : option string; no : option Z }.
End UpdatePokemonDto.

(** Modelled from the spec: common/dtos/pagination.dto.ts is not part of the
    sources; page size and offset are optional and not negative. *)
Module PaginationDto.
Record t := { limit : option nat; offset : option nat }.
End PaginationDto.

(** ** Errors *)

(** An error raised by the Mongoose model: its constructor name, the server
    error code when there is one, and the offending key of a duplicate. *)
Record error := {
  errName : string;
  code : option Z;
  keyValue : option (list (string * JSON.value))
}.

(** What a service method can throw: the three HTTP exceptions of the
    framework, or an error of the store that nothing caught. *)
Inductive exception :=
| NotFoundException (message : string)
| BadRequestException (message : string)
| InternalServerErrorException (message : string)
| StoreError (e : error).

(** [error.code] of a caught value; the HTTP exceptions have no such
    property. *)
Definition code_of (x : exception) : option Z :=
  match x with
  | StoreError e => code e
  | _ => None
  end.

Definition keyValue_of (x : exception) : option (list (string * JSON.value)) :=
  match x with
  | StoreError e => keyValue e
  | _ => None
  end.

(** ** The monad of the service: state and exceptions *)

Inductive result (A : Type) :=
| Ok (a : A)
| Throw (x : exception).

Arguments Ok {A} a.
Arguments Throw {A} x.

Definition M (S A : Type) : Type := S -> result A * S.

Definition ret {S A} (a : A) : M S A := fun s => (Ok a, s).

Definition throw {S A} (x : exception) : M S A := fun s => (Throw x, s).

Definition bind {S A B} (m : M S A) (k : A -> M S B) : M S B :=
  fun s => match m s with
           | (Ok a, s') => k a s'
           | (Throw x, s') => (Throw x, s')
           end.

(** [try { m } catch (error) { h error }] *)
Definition try_catch {S A} (m : M S A) (h : exception -> M S A) : M S A :=
  fun s => match m s with
           | (Ok a, s') => (Ok a, s')
           | (Throw x, s') => h x s'
           end.

Definition gets {S A} (f : S -> A) : M S A := fun s => (Ok (f s), s).

Definition modify {S} (f : S -> S) : M S unit := fun s => (Ok tt, f s).

Declare Scope monad_scope.
Delimit Scope monad_scope with monad.
Notation "x <- m ;; k" := (bind m (fun x => k))
  (at level 61, m at next level, right associativity) : monad_scope.
Notation "m ;; k" := (bind m (fun _ => k))
  (at level 61, right associativity) : monad_scope.
Local Open Scope monad_scope.

(** ** The document store behind the Mongoose model *)

Module Mongo.

Inductive order := Natural | Ascending | Descending.

(** The calls the service makes on the model, as they are issued. *)
Inductive call :=
| Create (name : string) (no : Z)
| FindOneByNo (no : JS.number)
| FindById (id : string)
| FindOneByName (name : string)
| UpdateOne (id : string) (name : option string) (no : option Z)
| DeleteOne (id : string)
| Find (limit skip : nat) (sorted : order).

(** The collection and its surroundings.
    - [docs]: the documents, in insertion order.
    - [objectIds], [generated]: the identifiers the driver generates, and how
      many of them were handed out.
    - [faults]: for each coming round trip to the server, the error it ends in
      if it fails for a reason of its own (network, server); a round trip
      beyond the list succeeds.
    - [calls]: the calls issued so far, oldest first.
    - [console]: what was written with [console.log]. *)
Record db := {
  docs : list Pokemon.t;
  objectIds : nat -> string;
  generated : nat;
  faults : list (option error);
  calls : list call;
  console : list exception
}.

Definition set_docs (ds : list Pokemon.t) (s : db) : db :=
  {| docs := ds; objectIds := objectIds s; generated := generated s;
     faults := faults s; calls := calls s; console := console s |}.

Definition next_objectId (s : db) : db :=
  {| docs := docs s; objectIds := objectIds s; generated := S (generated s);
     faults := faults s; calls := calls s; console := console s |}.

Definition set_faults (fs : list (option error)) (s : db) : db :=
  {| docs := docs s; objectIds := objectIds s; generated := generated s;
     faults := fs; calls := calls s; console := console s |}.

Definition record_call (c : call) (s : db) : db :=
  {| docs := docs s; objectIds := objectIds s; generated := generated s;
     faults := faults s; calls := calls s ++ [c]; console := console s |}.

Definition console_log (x : exception) (s : db) : db :=
  {| docs := docs s; objectIds := objectIds s; generated := generated s;
     faults := faults s; calls := calls s; console := console s ++ [x] |}.

(** One round trip to the server: it fails when the environment says so. *)
Definition round_trip : M db unit :=
  fun s => match faults s with
           | [] => (Ok tt, s)
           | None :: fs => (Ok tt, set_faults fs s)
           | Some e :: fs => (Throw (StoreError e), set_faults fs s)
           end.

Fixpoint all_hex (s : string) : bool :=
  match s with
  | EmptyString => true
  | String c r => JS.is_digit 16 c && all_hex r
  end.

(** [isValidObjectId] on a string: 24 hexadecimal digits, the format of an
    ObjectId. *)
Definition isValidObjectId (s : string) : bool :=
  (String.length s =? 24)%nat && all_hex s.

(** An identifier as the store holds it: the digits in lower case. *)
Definition canonical (id : string) : bool :=
  isValidObjectId id && String.eqb (JS.toLowerCase id) id.

Definition CastError : error :=
  {| errName := "CastError"; code := None; keyValue := None |}.

(** The cast of a string to an ObjectId, which the model applies to [_id] in
    a filter: two strings denote the same identifier when they differ in the
    case of the digits only. *)
Definition castObjectId (s : string) : M db string :=
  if isValidObjectId s then ret (JS.toLowerCase s) else throw (StoreError CastError).

(** The duplicate-key error of the server, code 11000. *)
Definition E11000 (field : string) (v : JSON.value) : error :=
  {| errName := "MongoServerError"; code := Some 11000;
     keyValue := Some [(field, v)] |}.

Definition has_id (id : string) (d : Pokemon.t) : bool := String.eqb (Pokemon._id d) id.
Definition has_name (n : string) (d : Pokemon.t) : bool := String.eqb (Pokemon.name d) n.
Definition has_no (n : Z) (d : Pokemon.t) : bool := Pokemon.no d =? n.

(** The violation of one unique index by a value, if the value is given. *)
Definition violates {A} (field : string) (v : A -> JSON.value) (has : A -> Pokemon.t -> bool)
    (x : option A) (ds : list Pokemon.t) : option error :=
  match x with
  | Some a => if existsb (has a) ds then Some (E11000 field (v a)) else None
  | None => None
  end.

Definition or_else {A} (x y : option A) : option A :=
  match x with Some _ => x | None => y end.

(** Modelled from the spec: the schema of entities/pokemon.entity.ts is not
    part of the sources; the collection has a unique index on [name] and one
    on [no], besides the one on [_id] every collection has.  The indexes are
    checked in this order, and the first violation is reported. *)
Definition unique_violation (id : option string) (n : option string) (o : option Z)
    (ds : list Pokemon.t) : option error :=
  or_else (violates "_id" JSON.VString has_id id ds)
    (or_else (violates "name" JSON.VString has_name n ds)
       (violates "no" JSON.VNumber has_no o ds)).

(** [Model.create(doc)]: the driver generates the identifier, the server
    inserts the document unless a unique index forbids it. *)
Definition create (name : string) (no : Z) : M db Pokemon.t :=
  modify (record_call (Create name no));;
  id <- gets (fun s => objectIds s (generated s));;
  modify next_objectId;;
  round_trip;;
  ds <- gets docs;;
  match unique_violation (Some id) (Some name) (Some no) ds with
  | Some e => throw (StoreError e)
  | None =>
      let doc := {| Pokemon._id := id; Pokemon.name := name;
                    Pokemon.no := no; Pokemon.__v := 0 |} in
      modify (set_docs (ds ++ [doc]));;
      ret doc
  end.

(** A stored ordinal is an integer, so only an integer matches one. *)
Definition matches_no (x : JS.number) (d : Pokemon.t) : bool :=
  match x with
  | JS.Integer z => has_no z d
  | _ => false
  end.

(** [Model.findOne({ no })] *)
Definition findOne_no (x : JS.number) : M db (option Pokemon.t) :=
  modify (record_call (FindOneByNo x));;
  round_trip;;
  ds <- gets docs;;
  ret (find (matches_no x) ds).

(** [Model.findById(id)] *)
Definition findById (id : string) : M db (option Pokemon.t) :=
  modify (record_call (FindById id));;
  oid <- castObjectId id;;
  round_trip;;
  ds <- gets docs;;
  ret (find (has_id oid) ds).

(** [Model.findOne({ name })] *)
Definition findOne_name (n : string) : M db (option Pokemon.t) :=
  modify (record_call (FindOneByName n));;
  round_trip;;
  ds <- gets docs;;
  ret (find (has_name n) ds).

(** The fields of an update applied to a document. *)
Definition patch (n : option string) (o : option Z) (d : Pokemon.t) : Pokemon.t :=
  {| Pokemon._id := Pokemon._id d;
     Pokemon.name := match n with Some x => x | None => Pokemon.name d end;
     Pokemon.no := match o with Some z => z | None => Pokemon.no d end;
     Pokemon.__v := Pokemon.__v d |}.

(** [doc.updateOne(update)]: sets the given fields of the stored document
    that has the identifier of [doc], unless a unique index forbids it. *)
Definition updateOne (doc : Pokemon.t) (n : option string) (o : option Z) : M db unit :=
  let id := Pokemon._id doc in
  modify (record_call (UpdateOne id n o));;
  round_trip;;
  ds <- gets docs;;
  if existsb (has_id id) ds then
    match unique_violation None n o (filter (fun d => negb (has_id id d)) ds) with
    | Some e => throw (StoreError e)
    | None => modify (set_docs (map (fun d => if has_id id d then patch n o d else d) ds))
    end
  else ret tt.

Fixpoint remove_first (p : Pokemon.t -> bool) (ds : list Pokemon.t) : list Pokemon.t :=
  match ds with
  | [] => []
  | d :: r => if p d then r else d :: remove_first p r
  end.

(** [Model.deleteOne({ _id })], which answers with [deletedCount]. *)
Definition deleteOne (id : string) : M db nat :=
  modify (record_call (DeleteOne id));;
  oid <- castObjectId id;;
  round_trip;;
  ds <- gets docs;;
  if existsb (has_id oid) ds
  then modify (set_docs (remove_first (has_id oid) ds));; ret 1%nat
  else ret 0%nat.

(** *** Queries *)

(** A query under construction: [q_limit] 0 is no limit. *)
Record Query := { q_limit : nat; q_skip : nat; q_sort : order }.

(** [Model.find()] *)
Definition find_all : Query := {| q_limit := 0; q_skip := 0; q_sort := Natural |}.

Definition limit (n : nat) (q : Query) : Query :=
  {| q_limit := n; q_skip := q_skip q; q_sort := q_sort q |}.

Definition skip (n : nat) (q : Query) : Query :=
  {| q_limit := q_limit q; q_skip := n; q_sort := q_sort q |}.

(** [sort({ no: 1 })] is [sort_no Ascending], [sort({ no: -1 })] is
    [sort_no Descending]. *)
Definition sort_no (o : order) (q : Query) : Query :=
  {| q_limit := q_limit q; q_skip := q_skip q; q_sort := o |}.

Fixpoint insert_by (le : Z -> Z -> bool) (d : Pokemon.t) (ds : list Pokemon.t) : list Pokemon.t :=
  match ds with
  | [] => [d]
  | x :: r => if le (Pokemon.no d) (Pokemon.no x) then d :: ds else x :: insert_by le d r
  end.

Definition sort_by (le : Z -> Z -> bool) (ds : list Pokemon.t) : list Pokemon.t :=
  fold_right (insert_by le) [] ds.

Definition ordered (o : order) (ds : list Pokemon.t) : list Pokemon.t :=
  match o with
  | Natural => ds
  | Ascending => sort_by Z.leb ds
  | Descending => sort_by Z.geb ds
  end.

(** The server sorts, then skips, then limits, whatever the order in which
    the query was built. *)
Definition page (q : Query) (ds : list Pokemon.t) : list Pokemon.t :=
  let rest := skipn (q_skip q) (ordered (q_sort q) ds) in
  match q_limit q with
  | O => rest
  | n => firstn n rest
  end.

(** The execution of a query, when the caller awaits it. *)
Definition exec (q : Query) : M db (list Pokemon.t) :=
  modify (record_call (Find (q_limit q) (q_skip q) (q_sort q)));;
  round_trip;;
  ds <- gets docs;;
  ret (page q ds).

End Mongo.

(** ** The service *)

Record PokemonService := { defaultLimit : nat }.

(** A method that receives an object runs on the object and the store: what
    it assigns to the object is seen by the caller. *)
Definition lift {O A} (m : M Mongo.db A) : M (O * Mongo.db) A :=
  fun os => let (r, s') := m (snd os) in (r, (fst os, s')).

Definition arg {O} : M (O * Mongo.db) O := gets fst.

Definition assign {O} (f : O -> O) : M (O * Mongo.db) unit :=
  modify (fun os => (f (fst os), snd os)).

Definition handleExceptions {A} (error : exception) : M Mongo.db A :=
  match code_of error with
  | Some 11000 =>
      throw (BadRequestException
               ("Pokemon already exists in db " ++ JSON.stringify (keyValue_of error)))
  | _ =>
      modify (Mongo.console_log error);;
      throw (InternalServerErrorException
               "Problemas con actualizar el pokemon - Chequear los logs")
  end.

Definition create : M (CreatePokemonDto.t * Mongo.db) Pokemon.t :=
  assign (fun dto =>
    {| CreatePokemonDto.name := JS.toLocaleLowerCase (CreatePokemonDto.name dto);
       CreatePokemonDto.no := CreatePokemonDto.no dto |});;
  try_catch
    (createPokemonDto <- arg;;
     pokemon <- lift (Mongo.create (CreatePokemonDto.name createPokemonDto)
                                   (CreatePokemonDto.no createPokemonDto));;
     ret pokemon)
    (fun error => lift (handleExceptions error)).

Definition findAll (this : PokemonService) (paginationDto : PaginationDto.t) : Mongo.Query :=
  let limit := match PaginationDto.limit paginationDto with
               | Some l => l
               | None => defaultLimit this
               end in
  let offset := match PaginationDto.offset paginationDto with
                | Some o => o
                | None => 0%nat
                end in
  Mongo.sort_no Mongo.Ascending (Mongo.skip offset (Mongo.limit limit Mongo.find_all)).

Definition e_acute : string := String (JS.char 233) EmptyString.

Definition not_found_term (term : string) : string :=
  "Pokemon con t" ++ e_acute ++ "rmino " ++ JSON.quote ++ term ++ JSON.quote
  ++ " no encontrado".

Definition is_null {A} (x : option A) : bool :=
  match x with None => true | Some _ => false end.

Definition findOne (term : string) : M Mongo.db Pokemon.t :=
  let pokemon : option Pokemon.t := None in
  pokemon <- (if negb (JS.isNaN (JS.toNumber term))
              then Mongo.findOne_no (JS.toNumber term)
              else ret pokemon);;
  pokemon <- (if is_null pokemon && Mongo.isValidObjectId term
              then Mongo.findById term
              else ret pokemon);;
  pokemon <- (if is_null pokemon
              then Mongo.findOne_name (JS.toLocaleLowerCase term)
              else ret pokemon);;
  match pokemon with
  | None => throw (NotFoundException (not_found_term term))
  | Some p => ret p
  end.

(** [{ ...pokemon.toJSON(), ...updatePokemonDto }] *)
Definition spread (pokemon : Pokemon.t) (dto : UpdatePokemonDto.t) : Pokemon.t :=
  Mongo.patch (UpdatePokemonDto.name dto) (UpdatePokemonDto.no dto) pokemon.

Definition lower_name (dto : UpdatePokemonDto.t) : UpdatePokemonDto.t :=
  {| UpdatePokemonDto.name := option_map JS.toLowerCase (UpdatePokemonDto.name dto);
     UpdatePokemonDto.no := UpdatePokemonDto.no dto |}.

Definition has_truthy_name (dto : UpdatePokemonDto.t) : bool :=
  match UpdatePokemonDto.name dto with
  | Some n => JS.truthy n
  | None => false
  end.

Definition update (term : string) : M (UpdatePokemonDto.t * Mongo.db) Pokemon.t :=
  pokemon <- lift (findOne term);;
  updatePokemonDto <- arg;;
  (if has_truthy_name updatePokemonDto then assign lower_name else ret tt);;
  try_catch
    (updatePokemonDto <- arg;;
     lift (Mongo.updateOne pokemon (UpdatePokemonDto.name updatePokemonDto)
                                   (UpdatePokemonDto.no updatePokemonDto));;
     ret (spread pokemon updatePokemonDto))
    (fun error => lift (handleExceptions error)).

Record Acknowledgement := { message : string }.

Definition not_found_id (id : string) : string :=
  "Pokemon con id " ++ JSON.quote ++ id ++ JSON.quote ++ " no encontrado".

Definition remove (_id : string) : M Mongo.db Acknowledgement :=
  deletedCount <- Mongo.deleteOne _id;;
  if (deletedCount =? 0)%nat
  then throw (NotFoundException (not_found_id _id))
  else ret {| message := "Pokemon eliminado" |}.

(** ** Predicates on stores *)

(** No coming round trip fails for a reason of its own. *)
Definition healthy (s : Mongo.db) : Prop := Forall (fun f => f = None) (Mongo.faults s).

(** The calls that only read. *)
Definition is_read (c : Mongo.call) : bool :=
  match c with
  | Mongo.FindOneByNo _ | Mongo.FindById _ | Mongo.FindOneByName _ | Mongo.Find _ _ _ => true
  | _ => false
  end.

(** From [s] to [s'] nothing changed but the calls issued and the faults
    consumed. *)
Record unchanged (s s' : Mongo.db) : Prop := {
  same_docs : Mongo.docs s' = Mongo.docs s;
  same_objectIds : Mongo.objectIds s' = Mongo.objectIds s;
  same_generated : Mongo.generated s' = Mongo.generated s;
  same_console : Mongo.console s' = Mongo.console s;
  stays_healthy : healthy s -> healthy s'
}.

(** The identifier the driver generates at the [k]-th insertion from now. *)
Definition next_id (k : nat) (s : Mongo.db) : string :=
  Mongo.objectIds s (Mongo.generated s + k)%nat.

(** An identifier that is well formed and not in the collection. *)
Definition is_new (id : string) (s : Mongo.db) : bool :=
  Mongo.canonical id && negb (existsb (Mongo.has_id id) (Mongo.docs s)).

(** What the validation of create-pokemon.dto.ts accepts: a name of three
    characters at least and a positive integer; the integer is taken in the
    range where a double holds every integer. *)
Definition valid (dto : CreatePokemonDto.t) : bool :=
  (3 <=? String.length (CreatePokemonDto.name dto))%nat
  && (0 <? CreatePokemonDto.no dto)
  && (CreatePokemonDto.no dto <=? JS.MAX_SAFE_INTEGER).

(** Every stored name is in lower-case form. *)
Definition names_lower (ds : list Pokemon.t) : Prop :=
  Forall (fun d => JS.is_lower (Pokemon.name d) = true) ds.

(** The ordinals of a list of records. *)
Definition ordinals (ds : list Pokemon.t) : list Z := map Pokemon.no ds.

(** Ascending by ordinal. *)
Definition ascending (ds : list Pokemon.t) : Prop :=
  StronglySorted Z.le (ordinals ds).

(** What [handleExceptions] turns a caught value into
    ([ServiceFacts.handleExceptions_throws]). *)
Definition translated (x : exception) : exception :=
  match code_of x with
  | Some 11000 =>
      BadRequestException
        ("Pokemon already exists in db " ++ JSON.stringify (keyValue_of x))
  | _ =>
      InternalServerErrorException
        "Problemas con actualizar el pokemon - Chequear los logs"
  end.

(** A computation that leaves the collection alone and issues read calls
    only. *)
Definition reads_only {A} (m : M Mongo.db A) : Prop :=
  forall s r s', m s = (r, s') ->
    unchanged s s' /\
    exists tr, Mongo.calls s' = (Mongo.calls s ++ tr)%list /\ forallb is_read tr = true.

(** What each strategy of [findOne] finds in a collection, when it is tried;
    [MongoFacts.findOne_healthy] relates these to [findOne]. *)
Definition by_no (term : string) (ds : list Pokemon.t) : option Pokemon.t :=
  if JS.isNaN (JS.toNumber term) then None
  else find (Mongo.matches_no (JS.toNumber term)) ds.

Definition by_id (term : string) (ds : list Pokemon.t) : option Pokemon.t :=
  if Mongo.isValidObjectId term then find (Mongo.has_id (JS.toLowerCase term)) ds
  else None.

Definition by_name (term : string) (ds : list Pokemon.t) : option Pokemon.t :=
  find (Mongo.has_name (JS.toLocaleLowerCase term)) ds.

(** The queries [findOne] issues on a collection that answers. *)
Definition queries (term : string) (ds : list Pokemon.t) : list Mongo.call :=
  ((if JS.isNaN (JS.toNumber term) then [] else [Mongo.FindOneByNo (JS.toNumber term)])
   ++ (if is_null (by_no term ds) && Mongo.isValidObjectId term
       then [Mongo.FindById term] else [])
   ++ (if is_null (by_no term ds) && is_null (by_id term ds)
       then [Mongo.FindOneByName (JS.toLocaleLowerCase term)] else []))%list.

(** The document [Model.create] inserts in a store. *)
Definition inserted (n : string) (o : Z) (s : Mongo.db) : Pokemon.t :=
  {| Pokemon._id := Mongo.objectIds s (Mongo.generated s); Pokemon.name := n;
     Pokemon.no := o; Pokemon.__v := 0 |}.

(** The store after [handleExceptions] caught a value: all but a duplicate
    key is written to the console. *)
Definition caught (x : exception) (s : Mongo.db) : Mongo.db :=
  match code_of x with
  | Some 11000 => s
  | _ => Mongo.console_log x s
  end.

(** The input of [create] after the call. *)
Definition lowered (dto : CreatePokemonDto.t) : CreatePokemonDto.t :=
  {| CreatePokemonDto.name := JS.toLocaleLowerCase (CreatePokemonDto.name dto);
     CreatePokemonDto.no := CreatePokemonDto.no dto |}.

(** ** Sample data *)

(** The identifiers a driver generates, for the examples. *)
Definition sample_objectIds (n : nat) : string :=
  nth n ["64f1c0ffee0ddba11ca70000"; "64f1c0ffee0ddba11ca70001";
         "64f1c0ffee0ddba11ca70002"; "64f1c0ffee0ddba11ca70003";
         "64f1c0ffee0ddba11ca70004"; "64f1c0ffee0ddba11ca70005";
         "64f1c0ffee0ddba11ca70006"; "64f1c0ffee0ddba11ca70007"]
        "64f1c0ffee0ddba11ca7ffff".

(** The store reached from the empty one by the creation of the given
    records, in this order, while the store answers. *)
Definition populated (ds : list Pokemon.t) : Mongo.db :=
  {| Mongo.docs := ds;
     Mongo.objectIds := sample_objectIds;
     Mongo.generated := List.length ds;
     Mongo.faults := [];
     Mongo.calls := map (fun d => Mongo.Create (Pokemon.name d) (Pokemon.no d)) ds;
     Mongo.console := [] |}.

Definition empty_db : Mongo.db := populated [].

Definition new_pokemon (n : string) (o : Z) : CreatePokemonDto.t :=
  {| CreatePokemonDto.name := n; CreatePokemonDto.no := o |}.

(** The [k]-th record created in a store, with its identifier of
    [sample_objectIds]. *)
Definition pokemon (k : nat) (n : string) (o : Z) : Pokemon.t :=
  {| Pokemon._id := sample_objectIds k; Pokemon.name := n;
     Pokemon.no := o; Pokemon.__v := 0 |}.

Definition bulbasaur : Pokemon.t := pokemon 0 "bulbasaur" 1.
Definition ivysaur : Pokemon.t := pokemon 1 "ivysaur" 2.
Definition pikachu : Pokemon.t := pokemon 2 "pikachu" 25.

(** bulbasaur and ivysaur, with ordinals 1 and 2. *)
Definition two_pokemon : Mongo.db := populated [bulbasaur; ivysaur].

(** The store after the creation of Pikachu, with the ordinal 25. *)
Definition three_pokemon : Mongo.db := populated [bulbasaur; ivysaur; pikachu].

(** The store of two records, when the next round trip fails on the network. *)
Definition NetworkError : error :=
  {| errName := "MongoNetworkError"; code := None; keyValue := None |}.

Definition two_pokemon_offline : Mongo.db := Mongo.set_faults [Some NetworkError] two_pokemon.

(** Five records with the ordinals 1 to 5, created in another order. *)
Definition five_pokemon : Mongo.db :=
  populated [pokemon 0 "venusaur" 3; pokemon 1 "bulbasaur" 1; pokemon 2 "charmeleon" 5;
             pokemon 3 "ivysaur" 2; pokemon 4 "charmander" 4].

Definition first_three : PaginationDto.t :=
  {| PaginationDto.limit := Some 3%nat; PaginationDto.offset := Some 0%nat |}.

Definition rename (n : string) : UpdatePokemonDto.t :=
  {| UpdatePokemonDto.name := Some n; UpdatePokemonDto.no := None |}.

(** A store whose only record is named "123" and has the ordinal 7. *)
Definition numeric_name : Mongo.db := populated [pokemon 0 "123" 7].

(** A store whose only record has the ordinal 123. *)
Definition abra_123 : Mongo.db := populated [pokemon 0 "abra" 123].

(** ** Statements of the specification that the service does not satisfy *)

(** On a term that parses as an integer and is the ordinal of no record,
    [findOne] fails with NotFound after the lookup by ordinal alone. *)
Definition ordinal_strategy_only (term : string) (s : Mongo.db) : Prop :=
  by_no term (Mongo.docs s) = None ->
  exists s',
    findOne term s = (Throw (NotFoundException (not_found_term term)), s')
    /\ Mongo.calls s' = (Mongo.calls s ++ [Mongo.FindOneByNo (JS.toNumber term)])%list.

(** After a successful [create], [findOne] returns the created record for its
    ordinal in decimal digits, for its identifier and for its name in any
    casing. *)
Definition created_is_found (dto : CreatePokemonDto.t) (s : Mongo.db) : Prop :=
  forall p dto' s1,
    create (dto, s) = (Ok p, (dto', s1)) ->
    forall term,
      term = JSON.decimal (Pokemon.no p)
      \/ term = Pokemon._id p
      \/ JS.toLowerCase term = JS.toLowerCase (CreatePokemonDto.name dto) ->
      fst (findOne term s1) = Ok p.

(** No error of the store comes out of an operation as the store raised it. *)
Definition store_error_translated {A} (r : result A) : Prop :=
  forall e, r <> Throw (StoreError e).

(** Whatever the outcome of [update], the object it received holds the
    lower-case name afterwards. *)
Definition update_input_normalized (term : string) (dto : UpdatePokemonDto.t)
    (s : Mongo.db) : Prop :=
  forall r dto' s', update term (dto, s) = (r, (dto', s')) -> dto' = lower_name dto.

(** ** Configuration: env.config.ts and the constructor of the service *)

(** The variables of [process.env] that the configuration reads; a variable
    that is not set is [undefined], here [None]. *)
Module ProcessEnv.
Record t := {
  NODE_ENV : option string;
  MONGODB : option string;
  PORT : option string;
  DEFAULT_LIMIT : option string
}.
End ProcessEnv.

(** The object [EnvConfig] returns. *)
Module Config.
Record t := {
  enviroment : string;
  mongodb : option string;
  port : JS.number;
  defaultLimit : JS.number
}.
End Config.

(** [Number(x)] for a variable of the environment: [undefined] converts to
    NaN, a string by [StringToNumber]. *)
Definition Number' (x : option string) : JS.number :=
  match x with
  | None => JS.NaN
  | Some s => JS.toNumber s
  end.

(** The truthiness of a number: NaN and zero are falsy. *)
Definition truthy_number (x : JS.number) : bool :=
  match x with
  | JS.NaN => false
  | JS.Integer 0 => false
  | _ => true
  end.

(** [x || d] on numbers. *)
Definition number_or (x d : JS.number) : JS.number :=
  if truthy_number x then x else d.

(** [x || d] on a string that may be [undefined]. *)
Definition string_or (x : option string) (d : string) : string :=
  match x with
  | Some s => if JS.truthy s then s else d
  | None => d
  end.

Definition EnvConfig (env : ProcessEnv.t) : Config.t :=
  {| Config.enviroment := string_or (ProcessEnv.NODE_ENV env) "dev";
     Config.mongodb := ProcessEnv.MONGODB env;
     Config.port := number_or (Number' (ProcessEnv.PORT env)) (JS.Integer 3000);
     Config.defaultLimit :=
       number_or (Number' (ProcessEnv.DEFAULT_LIMIT env)) (JS.Integer 5) |}.

(** A number as a count of records, when it is one: a page size is a natural
    number in this development. *)
Definition as_count (x : JS.number) : option nat :=
  match x with
  | JS.Integer z => if 0 <=? z then Some (Z.to_nat z) else None
  | _ => None
  end.

(** The constructor of [PokemonService]:
    [this.defaultLimit = Number(this.configService.get('defaultLimit'))], for
    a configuration service that holds the object of [EnvConfig]; [Number] of
    a number is that number.  The service is built when the configured value
    is a count. *)
Definition constructor (configService : Config.t) : option PokemonService :=
  match as_count (Config.defaultLimit configService) with
  | Some n => Some {| defaultLimit := n |}
  | None => None
  end.

(** ** The seed: seed.service.ts *)

Module Seed.

(** Modelled from the spec: interfaces/poke-response.interface.ts is not part
    of the sources; the remote catalog answers with pairs of a name and a
    url. *)
Record PokeResult := { name : string; url : string }.

(** [s.split('/')] *)
Fixpoint split (s : string) : list string :=
  match s with
  | EmptyString => [EmptyString]
  | String c r =>
      if Ascii.eqb c "/" then EmptyString :: split r
      else match split r with
           | h :: t => String c h :: t
           | [] => [String c EmptyString]
           end
  end.

(** [const segment = url.split('/'); const no = +segment[segment.length - 2]]:
    an index out of the array reads [undefined], which converts to NaN. *)
Definition no_of (url : string) : JS.number :=
  let segment := split url in
  match List.length segment with
  | S (S k) => Number' (nth_error segment k)
  | _ => Number' None
  end.

(** What [console.log] receives: [{ name, url }], then [{ name, no }]. *)
Inductive logged :=
| NameUrl (name url : string)
| NameNo (name : string) (no : JS.number).

(** [executeSeed], once the remote catalog has answered with [results]: the
    console before and after, and the value returned. *)
Definition executeSeed (results : list PokeResult) (console : list logged)
    : list PokeResult * list logged :=
  (results,
   fold_left
     (fun out r => out ++ [NameUrl (name r) (url r); NameNo (name r) (no_of (url r))])%list
     results console).

(** A string without a slash. *)
Fixpoint no_slash (s : string) : bool :=
  match s with
  | EmptyString => true
  | String c r => negb (Ascii.eqb c "/") && no_slash r
  end.

End Seed.

(** * Properties *)

Module JSFacts.
Import JS.

Ltac each_char c := destruct c as [[] [] [] [] [] [] [] []].

Lemma lower_char_not_upper c : is_upper (lower_char c) = false.
Proof. each_char c; reflexivity. Qed.

Lemma lower_char_fixed c : is_upper c = false -> lower_char c = c.
Proof. unfold lower_char. intros ->. reflexivity. Qed.

Lemma toLowerCase_is_lower s : is_lower (toLowerCase s) = true.
Proof.
  induction s as [|c s IH]; simpl; [reflexivity|].
  now rewrite lower_char_not_upper, IH.
Qed.

Lemma toLowerCase_fixed s : is_lower s = true -> toLowerCase s = s.
Proof.
  induction s as [|c s IH]; simpl; [reflexivity|].
  intros H. apply andb_true_iff in H as [Hc Hs].
  apply negb_true_iff in Hc.
  now rewrite (lower_char_fixed _ Hc), IH.
Qed.

Lemma toLowerCase_idempotent s : toLowerCase (toLowerCase s) = toLowerCase s.
Proof. apply toLowerCase_fixed, toLowerCase_is_lower. Qed.

Lemma toDouble_not_NaN p q : isNaN (toDouble p q) = false.
Proof.
  unfold toDouble.
  repeat match goal with |- context [if ?b then _ else _] => destruct b end;
    reflexivity.
Qed.

Lemma binade_integer v : 0 < v -> binade v 1 = Z.log2 v.
Proof.
  intros Hv. unfold binade.
  change (Z.log2 1) with 0. rewrite Z.sub_0_r.
  pose proof (Z.log2_nonneg v) as Hl.
  destruct (Z.leb_spec 0 (Z.log2 v)) as [_|]; [|lia].
  pose proof (proj1 (Z.log2_spec v Hv)) as Hp.
  destruct (Z.leb_spec (1 * 2 ^ Z.log2 v) v) as [_|]; [reflexivity|lia].
Qed.

Lemma toDouble_exact v : 0 < v <= MAX_SAFE_INTEGER -> toDouble v 1 = Integer v.
Proof.
  unfold MAX_SAFE_INTEGER. intros [Hv Hmax].
  assert (Hl : 0 <= Z.log2 v <= 52).
  { split; [apply Z.log2_nonneg|].
    assert (Z.log2 v < 53); [|lia].
    apply Z.log2_lt_pow2; lia. }
  unfold toDouble.
  destruct (Z.eqb_spec v 0) as [|_]; [lia|].
  rewrite (binade_integer v Hv).
  set (k := 52 - Z.log2 v).
  replace (Z.max (Z.log2 v - 52) (-1074)) with (- k) by (unfold k; lia).
  rewrite Z.opp_involutive.
  replace (Z.max 0 k) with k by lia.
  replace (Z.max 0 (- k)) with 0 by lia.
  change (1 * 2 ^ 0) with 1.
  rewrite Z.div_1_r, Z.mod_1_r.
  change (2 * 0 <? 1) with true. cbv iota.
  destruct (Z.ltb_spec 971 (- k)) as [|_]; [lia|].
  destruct (Z.eqb_spec (- k) 971) as [|_]; [lia|].
  cbv [orb andb].
  assert (Hk : 0 < 2 ^ k) by (apply Z.pow_pos_nonneg; unfold k; lia).
  destruct (Z.leb_spec 0 (- k)) as [H0|H0].
  - assert (k = 0) as -> by lia. change (- 0) with 0. change (2 ^ 0) with 1. f_equal. lia.
  - rewrite Z.mod_mul by lia. change (0 =? 0) with true. cbv iota.
    rewrite Z.div_mul by lia. reflexivity.
Qed.

Lemma digit_not_space c : is_digit 10 c = true -> is_space c = false.
Proof. each_char c; (reflexivity || discriminate). Qed.

Lemma digit_not_sign c :
  is_digit 10 c = true -> forall r, sign (String c r) = (false, String c r).
Proof. each_char c; intros H r; (reflexivity || discriminate). Qed.

Lemma digit_not_radix c r :
  is_digit 10 c = true -> radix_literal (String "0" (String c r)) = None.
Proof. each_char c; intros H; (reflexivity || discriminate). Qed.

Lemma digit_value_range c v : digit_value 10 c = Some v -> 0 <= v < 10.
Proof. each_char c; cbv; intros H; inversion H; split; congruence. Qed.

Lemma all_digits_trimEnd s : all_digits s = true -> trimEnd s = s.
Proof.
  induction s as [|c s IH]; simpl; [reflexivity|].
  intros H. apply andb_true_iff in H as [Hc Hs].
  rewrite (IH Hs), (digit_not_space _ Hc). now destruct s.
Qed.

Lemma all_digits_trim s : all_digits s = true -> trim s = s.
Proof.
  intros H. unfold trim.
  destruct s as [|c s]; [reflexivity|].
  simpl in H. apply andb_true_iff in H as [Hc Hs].
  simpl trimStart. rewrite (digit_not_space _ Hc).
  apply all_digits_trimEnd. simpl. now rewrite Hc, Hs.
Qed.

Lemma all_digits_span s : all_digits s = true -> span_digits s = (s, EmptyString).
Proof.
  induction s as [|c s IH]; simpl; [reflexivity|].
  intros H. apply andb_true_iff in H as [Hc Hs].
  now rewrite Hc, (IH Hs).
Qed.

Lemma all_digits_value s :
  all_digits s = true ->
  forall acc, 0 <= acc -> exists v, digits_value 10 acc s = Some v /\ 0 <= v.
Proof.
  induction s as [|c s IH]; simpl; intros H acc Hacc.
  - now exists acc.
  - apply andb_true_iff in H as [Hc Hs].
    unfold is_digit in Hc.
    destruct (digit_value 10 c) as [d|] eqn:Hd; [|discriminate].
    apply digit_value_range in Hd.
    apply (IH Hs). lia.
Qed.

Lemma append_empty_r s : (s ++ "")%string = s.
Proof. induction s; simpl; congruence. Qed.

Lemma all_digits_literal s :
  all_digits s = true -> truthy s = true ->
  exists v, digits_value 10 0 s = Some v /\ 0 <= v /\ decimal_literal s = Some (v, 0).
Proof.
  intros H Ht.
  destruct (all_digits_value s H 0) as (v & Hv & Hpos); [lia|].
  exists v. repeat split; trivial.
  unfold decimal_literal. rewrite (all_digits_span s H).
  rewrite append_empty_r.
  destruct s as [|c s]; [discriminate|].
  now rewrite Hv.
Qed.

Lemma all_digits_not_Infinity s :
  all_digits s = true -> String.eqb s "Infinity" = false.
Proof.
  destruct s as [|c s]; [reflexivity|].
  simpl. intros H. apply andb_true_iff in H as [Hc _].
  each_char c; (reflexivity || discriminate).
Qed.

Lemma all_digits_toNumber s :
  all_digits s = true -> truthy s = true ->
  exists v, digits_value 10 0 s = Some v /\ 0 <= v /\ toNumber s = toDouble v 1.
Proof.
  intros H Ht.
  destruct (all_digits_literal s H Ht) as (v & Hv & Hpos & Hlit).
  exists v. repeat split; trivial.
  unfold toNumber. rewrite (all_digits_trim s H).
  destruct s as [|c s]; [discriminate|].
  pose proof H as H'. simpl in H'. apply andb_true_iff in H' as [Hc Hs].
  assert (Hr : radix_literal (String c s) = None).
  { destruct s as [|c' s].
    - each_char c; reflexivity.
    - simpl in Hs. apply andb_true_iff in Hs as [Hc' _].
      each_char c; try discriminate Hc; try reflexivity.
      apply (digit_not_radix c' s Hc'). }
  rewrite Hr, (digit_not_sign c Hc), (all_digits_not_Infinity _ H), Hlit.
  unfold toDouble10. simpl (0 <=? 0). cbv iota.
  now rewrite Z.pow_0_r, Z.mul_1_r.
Qed.

Lemma integer_literal_toNumber s :
  integer_literal s = true ->
  exists v, 0 <= v /\
    digits_value 10 0 (snd (sign s)) = Some v /\
    toNumber s = if fst (sign s) then negate (toDouble v 1) else toDouble v 1.
Proof.
  unfold integer_literal.
  destruct (sign s) as [neg u] eqn:Hsign. intros H.
  apply andb_true_iff in H as [Ht Hd]. simpl fst. simpl snd.
  destruct s as [|c s]; [inversion Hsign; subst; discriminate|].
  assert (Hcases : (String c s = u /\ neg = false) \/
                   (s = u /\ (c = "+"%char /\ neg = false \/ c = "-"%char /\ neg = true))).
  { each_char c; inversion Hsign; subst; auto. }
  destruct Hcases as [[<- ->]|[<- Hc]].
  - destruct (all_digits_toNumber _ Hd Ht) as (v & Hv & Hpos & Hn).
    exists v. auto.
  - destruct (all_digits_literal _ Hd Ht) as (v & Hv & Hpos & Hlit).
    exists v. repeat split; trivial.
    assert (Htrim : trim (String c s) = String c s).
    { unfold trim. assert (is_space c = false) as Hsp by (destruct Hc as [[-> _]|[-> _]]; reflexivity).
      simpl. rewrite Hsp. simpl. rewrite (all_digits_trimEnd _ Hd).
      destruct s; [discriminate|reflexivity]. }
    unfold toNumber. rewrite Htrim.
    assert (Hr : radix_literal (String c s) = None)
      by (destruct Hc as [[-> _]|[-> _]]; reflexivity).
    rewrite Hr, Hsign, (all_digits_not_Infinity _ Hd), Hlit.
    unfold toDouble10. simpl (0 <=? 0). cbv iota.
    now rewrite Z.pow_0_r, Z.mul_1_r.
Qed.

Lemma integer_literal_not_NaN s :
  integer_literal s = true -> isNaN (toNumber s) = false.
Proof.
  intros H. destruct (integer_literal_toNumber s H) as (v & _ & _ & ->).
  destruct (fst (sign s)); [|apply toDouble_not_NaN].
  pose proof (toDouble_not_NaN v 1). now destruct (toDouble v 1).
Qed.
Lemma string_of_uint_all_digits d : all_digits (NilEmpty.string_of_uint d) = true.
Proof. induction d; simpl; trivial. Qed.

Lemma digits_value_of_uint_acc d :
  forall acc, digits_value 10 (Zpos acc) (NilEmpty.string_of_uint d)
              = Some (Zpos (Pos.of_uint_acc d acc)).
Proof.
  induction d; intros acc; [reflexivity|..].
  all: cbn [NilEmpty.string_of_uint digits_value Pos.of_uint_acc].
  all: match goal with
       | |- context [digit_value 10 ?c] =>
           let v := eval vm_compute in (digit_value 10 c) in
           change (digit_value 10 c) with v
       end.
  all: cbv iota beta; rewrite <- IHd; f_equal; lia.
Qed.

Lemma digits_value_of_uint d :
  digits_value 10 0 (NilEmpty.string_of_uint d) = Some (Z.of_N (Pos.of_uint d)).
Proof.
  induction d; [reflexivity|exact IHd|..].
  all: cbn [NilEmpty.string_of_uint digits_value Pos.of_uint].
  all: match goal with
       | |- context [digit_value 10 ?c] =>
           let v := eval vm_compute in (digit_value 10 c) in
           change (digit_value 10 c) with v
       end.
  all: cbv iota beta; apply digits_value_of_uint_acc.
Qed.

Lemma decimal_positive p :
  JSON.decimal (Zpos p) = NilEmpty.string_of_uint (Pos.to_uint p).
Proof.
  unfold JSON.decimal. simpl.
  pose proof (DecimalPos.Unsigned.to_uint_nonnil p).
  now destruct (Pos.to_uint p).
Qed.

Lemma toNumber_decimal z :
  0 < z <= MAX_SAFE_INTEGER -> toNumber (JSON.decimal z) = Integer z.
Proof.
  intros Hz. destruct z as [|p|p]; try lia.
  rewrite decimal_positive.
  destruct (all_digits_toNumber (NilEmpty.string_of_uint (Pos.to_uint p)))
    as (v & Hv & _ & ->).
  - apply string_of_uint_all_digits.
  - pose proof (DecimalPos.Unsigned.to_uint_nonnil p). now destruct (Pos.to_uint p).
  - rewrite digits_value_of_uint, DecimalPos.Unsigned.of_to in Hv.
    inversion Hv; subst. now apply toDouble_exact.
Qed.
End JSFacts.

(** ** Facts on the store *)

Module MongoFacts.
Import Mongo.
Local Open Scope list_scope.

Lemma unchanged_refl s : unchanged s s.
Proof. now constructor. Qed.

Lemma unchanged_trans s1 s2 s3 : unchanged s1 s2 -> unchanged s2 s3 -> unchanged s1 s3.
Proof.
  intros [] []. constructor; try congruence. auto.
Qed.

Lemma record_call_unchanged c s : unchanged s (record_call c s).
Proof. now constructor. Qed.

Lemma set_faults_unchanged fs s :
  Forall (fun f => f = None) fs -> unchanged s (set_faults fs s).
Proof. now constructor. Qed.

Lemma reads_only_ret A (a : A) : reads_only (ret a).
Proof.
  intros s r s' H. inversion H; subst. split; [apply unchanged_refl|].
  exists []. now rewrite app_nil_r.
Qed.

Lemma reads_only_throw A x : reads_only (@throw db A x).
Proof.
  intros s r s' H. inversion H; subst. split; [apply unchanged_refl|].
  exists []. now rewrite app_nil_r.
Qed.

Lemma reads_only_bind A B (m : M db A) (k : A -> M db B) :
  reads_only m -> (forall a, reads_only (k a)) -> reads_only (bind m k).
Proof.
  intros Hm Hk s r s' H. unfold bind in H.
  destruct (m s) as [[a|x] s1] eqn:E.
  - destruct (Hm _ _ _ E) as (U1 & tr1 & C1 & R1).
    destruct (Hk a _ _ _ H) as (U2 & tr2 & C2 & R2).
    split; [eapply unchanged_trans; eauto|].
    exists (tr1 ++ tr2). rewrite C2, C1, app_assoc, forallb_app, R1, R2. auto.
  - inversion H; subst. eauto.
Qed.

Lemma reads_only_round_trip : reads_only round_trip.
Proof.
  intros s r s' H. unfold round_trip in H.
  assert (U : unchanged s s' /\ calls s' = calls s).
  { destruct (faults s) as [|[e|] fs] eqn:E; inversion H; subst; split; trivial.
    - apply unchanged_refl.
    - constructor; trivial. unfold healthy. rewrite E. intros F. now inversion F.
    - constructor; trivial. unfold healthy. rewrite E. intros F. now inversion F. }
  destruct U as [U C]. split; trivial. exists []. now rewrite app_nil_r.
Qed.

Lemma reads_only_record c : is_read c = true -> reads_only (modify (record_call c)).
Proof.
  intros Hc s r s' H. inversion H; subst. split; [apply record_call_unchanged|].
  exists [c]. simpl. now rewrite Hc.
Qed.

Lemma reads_only_gets A (f : db -> A) : reads_only (gets f).
Proof.
  intros s r s' H. inversion H; subst. split; [apply unchanged_refl|].
  exists []. now rewrite app_nil_r.
Qed.

Lemma reads_only_findOne_no x : reads_only (findOne_no x).
Proof.
  unfold findOne_no.
  repeat (apply reads_only_bind; [|intros ?]);
    auto using reads_only_ret, reads_only_gets, reads_only_round_trip, reads_only_record.
Qed.

Lemma reads_only_findOne_name n : reads_only (findOne_name n).
Proof.
  unfold findOne_name.
  repeat (apply reads_only_bind; [|intros ?]);
    auto using reads_only_ret, reads_only_gets, reads_only_round_trip, reads_only_record.
Qed.

Lemma reads_only_findById id : reads_only (findById id).
Proof.
  unfold findById, castObjectId.
  repeat (apply reads_only_bind; [|intros ?]);
    auto using reads_only_ret, reads_only_gets, reads_only_round_trip, reads_only_record.
  destruct (isValidObjectId id); auto using reads_only_ret, reads_only_throw.
Qed.

Lemma reads_only_exec q : reads_only (exec q).
Proof.
  unfold exec.
  repeat (apply reads_only_bind; [|intros ?]);
    auto using reads_only_ret, reads_only_gets, reads_only_round_trip, reads_only_record.
Qed.

Lemma reads_only_findOne term : reads_only (findOne term).
Proof.
  unfold findOne.
  repeat (apply reads_only_bind; [|intros ?]);
    repeat match goal with |- reads_only (if ?b then _ else _) => destruct b end;
    repeat match goal with |- reads_only (match ?b with _ => _ end) => destruct b end;
    auto using reads_only_ret, reads_only_throw, reads_only_findOne_no,
      reads_only_findById, reads_only_findOne_name.
Qed.

Lemma query_healthy A c (f : list Pokemon.t -> A) s :
  healthy s ->
  exists s',
    (modify (record_call c);; round_trip;; ds <- gets docs;; ret (f ds)) s
      = (Ok (f (docs s)), s')
    /\ unchanged s s' /\ calls s' = calls s ++ [c].
Proof.
  intros H. unfold bind, modify, gets, ret, round_trip. simpl.
  unfold healthy in H.
  destruct (faults s) as [|[e|] fs] eqn:E.
  - eexists; repeat split; try reflexivity. unfold healthy; simpl. now rewrite E.
  - inversion H; discriminate.
  - eexists; repeat split; try reflexivity. unfold healthy; simpl. now inversion H.
Qed.

Lemma findOne_healthy term s :
  healthy s ->
  exists s',
    findOne term s =
      (match or_else (by_no term (docs s))
                     (or_else (by_id term (docs s)) (by_name term (docs s))) with
       | Some p => Ok p
       | None => Throw (NotFoundException (not_found_term term))
       end, s')
    /\ unchanged s s' /\ calls s' = calls s ++ queries term (docs s).
Proof.
  intros H. unfold findOne, queries, by_no.
  (* first strategy *)
  assert (S1 : exists s1,
    (if negb (JS.isNaN (JS.toNumber term))
     then findOne_no (JS.toNumber term) else ret None) s
    = (Ok (if JS.isNaN (JS.toNumber term) then None
           else find (matches_no (JS.toNumber term)) (docs s)), s1)
    /\ unchanged s s1
    /\ calls s1 = calls s ++ (if JS.isNaN (JS.toNumber term) then []
                              else [FindOneByNo (JS.toNumber term)])).
  { destruct (JS.isNaN (JS.toNumber term)); simpl.
    - exists s. rewrite app_nil_r. auto using unchanged_refl.
    - apply (query_healthy _ _ _ s H). }
  destruct S1 as (s1 & E1 & U1 & C1).
  set (p1 := if JS.isNaN (JS.toNumber term) then None
             else find (matches_no (JS.toNumber term)) (docs s)) in *.
  assert (H1 : healthy s1) by (apply U1, H).
  (* second strategy *)
  assert (S2 : exists s2,
    (if is_null p1 && isValidObjectId term then findById term else ret p1) s1
    = (Ok (or_else p1 (by_id term (docs s))), s2)
    /\ unchanged s1 s2
    /\ calls s2 = calls s1 ++ (if is_null p1 && isValidObjectId term
                               then [FindById term] else [])).
  { unfold by_id. destruct p1 as [p|]; simpl.
    - exists s1. rewrite app_nil_r. auto using unchanged_refl.
    - destruct (isValidObjectId term) eqn:V.
      + unfold findById, castObjectId. rewrite V.
        rewrite <- (same_docs _ _ U1).
        apply (query_healthy _ (FindById term) (find (has_id (JS.toLowerCase term))) s1 H1).
      + exists s1. rewrite app_nil_r. auto using unchanged_refl. }
  destruct S2 as (s2 & E2 & U2 & C2).
  set (p2 := or_else p1 (by_id term (docs s))) in *.
  assert (H2 : healthy s2) by (apply U2, H1).
  (* third strategy *)
  assert (S3 : exists s3,
    (if is_null p2 then findOne_name (JS.toLocaleLowerCase term) else ret p2) s2
    = (Ok (or_else p2 (by_name term (docs s))), s3)
    /\ unchanged s2 s3
    /\ calls s3 = calls s2 ++ (if is_null p2
                               then [FindOneByName (JS.toLocaleLowerCase term)] else [])).
  { unfold by_name. destruct p2 as [p|]; simpl.
    - exists s2. rewrite app_nil_r. auto using unchanged_refl.
    - rewrite <- (same_docs _ _ U1), <- (same_docs _ _ U2).
      apply (query_healthy _ _ _ s2 H2). }
  destruct S3 as (s3 & E3 & U3 & C3).
  exists s3. split; [|split].
  - unfold bind. rewrite E1, E2, E3.
    replace (or_else p1 (or_else (by_id term (docs s)) (by_name term (docs s))))
      with (or_else p2 (by_name term (docs s)))
      by (unfold p2; now destruct p1).
    now destruct (or_else p2 (by_name term (docs s))).
  - eauto using unchanged_trans.
  - rewrite C3, C2, C1, <- !app_assoc. do 2 f_equal.
    unfold p2. destruct p1; simpl; trivial.
Qed.

(** *** Insertion *)

Lemma create_ok n o s p s1 :
  Mongo.create n o s = (Ok p, s1) ->
  p = inserted n o s
  /\ unique_violation (Some (objectIds s (generated s))) (Some n) (Some o) (docs s) = None
  /\ docs s1 = docs s ++ [p]
  /\ objectIds s1 = objectIds s
  /\ generated s1 = S (generated s)
  /\ calls s1 = calls s ++ [Create n o]
  /\ console s1 = console s
  /\ (healthy s -> healthy s1).
Proof.
  unfold Mongo.create, bind, modify, gets, ret, throw, round_trip, healthy. simpl.
  destruct (faults s) as [|[e|] fs] eqn:E; simpl;
    try discriminate;
    destruct (unique_violation _ _ _ (docs s)) eqn:V;
    try discriminate;
    intros H; inversion H; subst; simpl; rewrite ?E; repeat split; trivial.
  intros F. now inversion F.
Qed.

Lemma create_throw n o s x s1 :
  Mongo.create n o s = (Throw x, s1) ->
  (exists e, x = StoreError e)
  /\ docs s1 = docs s
  /\ calls s1 = calls s ++ [Create n o]
  /\ console s1 = console s
  /\ (healthy s ->
      unique_violation (Some (objectIds s (generated s))) (Some n) (Some o) (docs s)
      = Some match x with StoreError e => e | _ => CastError end).
Proof.
  unfold Mongo.create, bind, modify, gets, ret, throw, round_trip, healthy. simpl.
  destruct (faults s) as [|[e|] fs] eqn:E; simpl;
    try destruct (unique_violation _ _ _ (docs s)) eqn:V;
    try discriminate;
    intros H; inversion H; subst; simpl; repeat split; eauto.
  all: intros F; inversion F; try discriminate.
Qed.

Lemma create_healthy n o s :
  healthy s ->
  exists s1,
    Mongo.create n o s =
      (match unique_violation (Some (objectIds s (generated s))) (Some n) (Some o) (docs s) with
       | Some e => Throw (StoreError e)
       | None => Ok (inserted n o s)
       end, s1)
    /\ healthy s1.
Proof.
  unfold Mongo.create, bind, modify, gets, ret, throw, round_trip, healthy. simpl.
  intros F.
  destruct (faults s) as [|[e|] fs] eqn:E; simpl;
    [| inversion F; discriminate |];
    destruct (unique_violation _ _ _ (docs s)) eqn:V; simpl;
    eexists; split; try reflexivity; simpl; rewrite ?E; trivial; now inversion F.
Qed.

(** *** Searches *)

Lemma existsb_false A (f : A -> bool) l :
  existsb f l = false -> forall x, In x l -> f x = false.
Proof.
  intros H x Hx. destruct (f x) eqn:E; trivial.
  assert (existsb f l = true) by (apply existsb_exists; eauto). congruence.
Qed.

Lemma find_unique A (f : A -> bool) l p :
  (forall x, In x l -> f x = true -> x = p) ->
  find f l = None \/ find f l = Some p.
Proof.
  intros H. destruct (find f l) as [x|] eqn:E; auto.
  apply find_some in E as [Hx Hf]. right. f_equal. auto.
Qed.

Lemma find_last A (f : A -> bool) l p :
  (forall x, In x l -> f x = false) -> f p = true -> find f (l ++ [p]) = Some p.
Proof.
  intros H Hp. induction l as [|x l IH]; simpl.
  - now rewrite Hp.
  - rewrite (H x) by now left. apply IH. intros y Hy. apply H. now right.
Qed.

Lemma unique_violation_none id n o ds :
  unique_violation (Some id) (Some n) (Some o) ds = None ->
  existsb (has_id id) ds = false
  /\ existsb (has_name n) ds = false
  /\ existsb (has_no o) ds = false.
Proof.
  unfold unique_violation, violates, or_else.
  destruct (existsb (has_id id) ds); [discriminate|].
  destruct (existsb (has_name n) ds); [discriminate|].
  destruct (existsb (has_no o) ds); [discriminate|]. auto.
Qed.

(** *** Updates and deletions *)

Lemma updateOne_ok p n o s u s2 :
  updateOne p n o s = (Ok u, s2) ->
  calls s2 = calls s ++ [UpdateOne (Pokemon._id p) n o]
  /\ console s2 = console s
  /\ docs s2 = map (fun d => if has_id (Pokemon._id p) d then patch n o d else d) (docs s)
  /\ (existsb (has_id (Pokemon._id p)) (docs s) = true ->
      unique_violation None n o
        (filter (fun d => negb (has_id (Pokemon._id p) d)) (docs s)) = None).
Proof.
  unfold updateOne, bind, modify, gets, ret, throw, round_trip. simpl.
  assert (Hmap : forall ds, existsb (has_id (Pokemon._id p)) ds = false ->
            map (fun d => if has_id (Pokemon._id p) d then patch n o d else d) ds = ds).
  { induction ds as [|d ds IH]; simpl; trivial.
    intros H. apply orb_false_iff in H as [Hd Hds]. now rewrite Hd, IH. }
  destruct (faults s) as [|[e|] fs] eqn:E; simpl; try discriminate;
    destruct (existsb (has_id (Pokemon._id p)) (docs s)) eqn:X; simpl;
    try destruct (unique_violation None n o _) eqn:V; simpl; try discriminate;
    intros H; inversion H; subst; simpl; repeat split; trivial;
    try discriminate; now rewrite Hmap.
Qed.

Lemma updateOne_throw p n o s x s2 :
  updateOne p n o s = (Throw x, s2) ->
  (exists e, x = StoreError e)
  /\ docs s2 = docs s
  /\ calls s2 = calls s ++ [UpdateOne (Pokemon._id p) n o]
  /\ console s2 = console s.
Proof.
  unfold updateOne, bind, modify, gets, ret, throw, round_trip. simpl.
  destruct (faults s) as [|[e|] fs] eqn:E; simpl;
    try destruct (existsb (has_id (Pokemon._id p)) (docs s)) eqn:X; simpl;
    try destruct (unique_violation None n o _) eqn:V; simpl; try discriminate;
    intros H; inversion H; subst; simpl; repeat split; eauto.
Qed.

Lemma remove_first_length f ds :
  existsb f ds = true -> List.length ds = S (List.length (remove_first f ds)).
Proof.
  induction ds as [|d ds IH]; simpl; [discriminate|].
  destruct (f d); simpl; auto.
Qed.

Lemma deleteOne_ok id s n s1 :
  deleteOne id s = (Ok n, s1) ->
  isValidObjectId id = true
  /\ calls s1 = calls s ++ [DeleteOne id]
  /\ console s1 = console s
  /\ (if existsb (has_id (JS.toLowerCase id)) (docs s)
      then n = 1%nat /\ docs s1 = remove_first (has_id (JS.toLowerCase id)) (docs s)
      else n = 0%nat /\ docs s1 = docs s).
Proof.
  unfold deleteOne, castObjectId, bind, modify, gets, ret, throw, round_trip. simpl.
  destruct (isValidObjectId id); simpl; [|discriminate].
  destruct (faults s) as [|[e|] fs] eqn:E; simpl; try discriminate;
    destruct (existsb (has_id (JS.toLowerCase id)) (docs s)) eqn:X; simpl;
    intros H; inversion H; subst; simpl; auto.
Qed.

Lemma deleteOne_throw id s x s1 :
  deleteOne id s = (Throw x, s1) ->
  (exists e, x = StoreError e) /\ docs s1 = docs s.
Proof.
  unfold deleteOne, castObjectId, bind, modify, gets, ret, throw, round_trip. simpl.
  destruct (isValidObjectId id); simpl;
    [|intros H; inversion H; subst; simpl; eauto].
  destruct (faults s) as [|[e|] fs] eqn:E; simpl;
    try destruct (existsb (has_id (JS.toLowerCase id)) (docs s)) eqn:X; simpl;
    try discriminate;
    intros H; inversion H; subst; simpl; eauto.
Qed.

Lemma deleteOne_healthy id s :
  healthy s -> isValidObjectId id = true ->
  exists s1,
    deleteOne id s =
      (Ok (if existsb (has_id (JS.toLowerCase id)) (docs s) then 1%nat else 0%nat), s1).
Proof.
  unfold deleteOne, castObjectId, bind, modify, gets, ret, throw, round_trip, healthy.
  simpl. intros F ->. simpl.
  destruct (faults s) as [|[e|] fs] eqn:E; simpl;
    [| inversion F; discriminate |];
    destruct (existsb (has_id (JS.toLowerCase id)) (docs s)); simpl; eauto.
Qed.

(** *** What the queries return *)

Lemma query_ok A c (f : list Pokemon.t -> A) s r s' :
  (modify (record_call c);; round_trip;; ds <- gets docs;; ret (f ds)) s = (Ok r, s') ->
  r = f (docs s).
Proof.
  unfold bind, modify, gets, ret, round_trip. simpl.
  destruct (faults s) as [|[e|] fs]; simpl; intros H; inversion H; now subst.
Qed.

Lemma findById_ok id s r s' :
  findById id s = (Ok r, s') -> r = find (has_id (JS.toLowerCase id)) (docs s).
Proof.
  unfold findById, castObjectId.
  destruct (isValidObjectId id).
  - apply (query_ok _ (FindById id) (find (has_id (JS.toLowerCase id)))).
  - unfold bind, modify, throw. simpl. discriminate.
Qed.

Lemma findOne_ok_in term s p s' : findOne term s = (Ok p, s') -> In p (docs s).
Proof.
  unfold findOne, bind.
  destruct ((if negb (JS.isNaN (JS.toNumber term))
             then findOne_no (JS.toNumber term) else ret None) s)
    as [[p1|x1] s1] eqn:E1; [|discriminate].
  assert (D1 : docs s1 = docs s /\ forall q, p1 = Some q -> In q (docs s)).
  { destruct (negb (JS.isNaN (JS.toNumber term))).
    - split; [apply (reads_only_findOne_no _ _ _ _ E1)|].
      intros q ->. apply query_ok in E1. symmetry in E1.
      now apply find_some in E1.
    - inversion E1; subst. split; trivial. discriminate. }
  destruct D1 as [D1 I1].
  destruct ((if is_null p1 && isValidObjectId term then findById term else ret p1) s1)
    as [[p2|x2] s2] eqn:E2; [|discriminate].
  assert (D2 : docs s2 = docs s /\ forall q, p2 = Some q -> In q (docs s)).
  { destruct (is_null p1 && isValidObjectId term).
    - split; [rewrite <- D1; apply (reads_only_findById _ _ _ _ E2)|].
      intros q ->. apply findById_ok in E2. symmetry in E2.
      rewrite <- D1. now apply find_some in E2.
    - inversion E2; subst. auto. }
  destruct D2 as [D2 I2].
  destruct ((if is_null p2 then findOne_name (JS.toLocaleLowerCase term) else ret p2) s2)
    as [[p3|x3] s3] eqn:E3; [|discriminate].
  assert (I3 : forall q, p3 = Some q -> In q (docs s)).
  { destruct (is_null p2).
    - intros q ->. apply query_ok in E3. symmetry in E3.
      rewrite <- D2. now apply find_some in E3.
    - inversion E3; subst. auto. }
  destruct p3 as [q|]; [|discriminate].
  intros H. inversion H; subst. now apply I3.
Qed.

(** *** Lower-case names *)

Lemma names_lower_patch n o ds id :
  names_lower ds ->
  match n with Some x => JS.is_lower x = true | None => True end ->
  names_lower (map (fun d => if has_id id d then patch n o d else d) ds).
Proof.
  intros H Hn. unfold names_lower in *. rewrite Forall_forall in *.
  intros d Hd. apply in_map_iff in Hd as (d0 & <- & Hd0).
  destruct (has_id id d0); auto.
  destruct n as [x|]; simpl; auto.
Qed.

Lemma names_lower_remove_first f ds :
  names_lower ds -> names_lower (remove_first f ds).
Proof.
  unfold names_lower. induction 1 as [|d ds Hd Hds IH]; simpl; [constructor|].
  destruct (f d); auto.
Qed.

(** *** Sorting and paging *)

Lemma insert_by_perm le d ds : Permutation (insert_by le d ds) (d :: ds).
Proof.
  induction ds as [|x r IH]; simpl; [reflexivity|].
  destruct (le _ _); [reflexivity|].
  rewrite IH. apply perm_swap.
Qed.

Lemma sort_by_perm le ds : Permutation (sort_by le ds) ds.
Proof.
  induction ds as [|d r IH]; simpl; [reflexivity|].
  rewrite insert_by_perm. now constructor.
Qed.

Lemma insert_by_ascending d ds :
  ascending ds -> ascending (insert_by Z.leb d ds).
Proof.
  unfold ascending, ordinals.
  induction ds as [|x r IH]; simpl; intros H.
  - repeat constructor.
  - inversion H as [|? ? Hr Hx]; subst.
    destruct (Z.leb_spec (Pokemon.no d) (Pokemon.no x)) as [L|L]; simpl.
    + constructor; [exact H|]. constructor; trivial.
      eapply Forall_impl; [|exact Hx]. intros; lia.
    + constructor; [now apply IH|].
      change (Forall (Z.le (Pokemon.no x)) (map Pokemon.no (insert_by Z.leb d r))).
      rewrite (Permutation_map Pokemon.no (insert_by_perm Z.leb d r)). simpl.
      constructor; [lia|trivial].
Qed.

Lemma sort_by_ascending ds : ascending (sort_by Z.leb ds).
Proof.
  induction ds as [|d r IH]; simpl; [constructor|].
  now apply insert_by_ascending.
Qed.

Lemma firstn_incl A n (l : list A) : incl (firstn n l) l.
Proof.
  intros x Hx. rewrite <- (firstn_skipn n l). apply in_or_app. now left.
Qed.

Lemma skipn_incl A n (l : list A) : incl (skipn n l) l.
Proof.
  intros x Hx. rewrite <- (firstn_skipn n l). apply in_or_app. now right.
Qed.

Lemma ascending_skipn n ds : ascending ds -> ascending (skipn n ds).
Proof.
  unfold ascending, ordinals. revert ds.
  induction n as [|n IH]; intros [|d r] H; simpl; trivial.
  apply IH. now inversion H.
Qed.

Lemma ascending_firstn n ds : ascending ds -> ascending (firstn n ds).
Proof.
  unfold ascending, ordinals. revert ds.
  induction n as [|n IH]; intros [|d r] H; simpl; try constructor.
  - apply IH. now inversion H.
  - inversion H as [|? ? Hr Hd]; subst.
    rewrite Forall_forall in *. intros z Hz. apply Hd.
    apply in_map_iff in Hz as (y & <- & Hy). apply in_map.
    now apply (firstn_incl _ n r).
Qed.

Lemma page_ascending this dto ds : ascending (page (findAll this dto) ds).
Proof.
  unfold page, findAll. simpl.
  set (o := match PaginationDto.offset dto with Some o => o | None => 0%nat end).
  assert (H : ascending (skipn o (sort_by Z.leb ds)))
    by apply ascending_skipn, sort_by_ascending.
  destruct (match PaginationDto.limit dto with Some l => l | None => defaultLimit this end)
    as [|n]; trivial.
  exact (ascending_firstn (S n) _ H).
Qed.

Lemma page_incl q ds : incl (page q ds) ds.
Proof.
  unfold page.
  assert (H : incl (skipn (q_skip q) (ordered (q_sort q) ds)) ds).
  { intros x Hx. apply skipn_incl in Hx.
    destruct (q_sort q); simpl in Hx; trivial;
      eapply Permutation_in; [apply sort_by_perm|exact Hx|apply sort_by_perm|exact Hx]. }
  destruct (q_limit q) as [|n]; trivial.
  intros x Hx. apply H. exact (firstn_incl _ (S n) _ x Hx).
Qed.

(** Two lists of integers in ascending order with the same elements are the
    same list. *)
Lemma sorted_perm_eq (l l' : list Z) :
  StronglySorted Z.le l -> StronglySorted Z.le l' -> Permutation l l' -> l = l'.
Proof.
  revert l'. induction l as [|a l IH]; intros l' S S' P.
  - apply Permutation_nil in P. now subst.
  - destruct l' as [|b l'];
      [apply Permutation_sym, Permutation_nil in P; discriminate|].
    inversion S as [|? ? Sl Ha]; inversion S' as [|? ? Sl' Hb]; subst.
    assert (a = b).
    { rewrite Forall_forall in Ha, Hb.
      assert (In a (b :: l')) as [->|I1] by (eapply Permutation_in; [exact P|now left]);
        trivial.
      assert (In b (a :: l)) as [->|I2]
        by (eapply Permutation_in; [apply Permutation_sym; exact P|now left]);
        trivial.
      specialize (Ha _ I2). specialize (Hb _ I1). lia. }
    subst b. f_equal. apply IH; trivial.
    now apply Permutation_cons_inv in P.
Qed.


End MongoFacts.

(** ** Facts on the service *)

Module ServiceFacts.
Import MongoFacts.
Local Open Scope list_scope.

Lemma handleExceptions_throws A x s :
  @handleExceptions A x s = (Throw (translated x), caught x s).
Proof.
  unfold handleExceptions, translated, caught.
  destruct (code_of x) as [z|]; [|reflexivity].
  destruct z as [|p|p]; try reflexivity.
  repeat (destruct p as [p|p|]; try reflexivity).
Qed.

Lemma caught_docs x s : Mongo.docs (caught x s) = Mongo.docs s.
Proof.
  unfold caught.
  destruct (code_of x) as [z|]; [|reflexivity].
  destruct z as [|p|p]; try reflexivity.
  repeat (destruct p as [p|p|]; try reflexivity).
Qed.

Lemma create_unfold dto s :
  create (dto, s) =
    match Mongo.create (CreatePokemonDto.name (lowered dto))
                       (CreatePokemonDto.no (lowered dto)) s with
    | (Ok p, s1) => (Ok p, (lowered dto, s1))
    | (Throw x, s1) => (Throw (translated x), (lowered dto, caught x s1))
    end.
Proof.
  unfold create, bind, try_catch, assign, modify, arg, gets, lift, ret. simpl.
  fold (lowered dto).
  destruct (Mongo.create _ _ s) as [[p|x] s1]; simpl; [reflexivity|].
  now rewrite handleExceptions_throws.
Qed.

Lemma lower_name_normalizes dto :
  (if has_truthy_name dto then lower_name dto else dto) = lower_name dto.
Proof.
  destruct dto as [[n|] o]; unfold has_truthy_name, lower_name; simpl; trivial.
  now destruct n.
Qed.

Lemma update_unfold term dto s :
  update term (dto, s) =
    match findOne term s with
    | (Throw x, s1) => (Throw x, (dto, s1))
    | (Ok p, s1) =>
        match Mongo.updateOne p (UpdatePokemonDto.name (lower_name dto))
                                (UpdatePokemonDto.no (lower_name dto)) s1 with
        | (Ok _, s2) => (Ok (spread p (lower_name dto)), (lower_name dto, s2))
        | (Throw x, s2) => (Throw (translated x), (lower_name dto, caught x s2))
        end
    end.
Proof.
  unfold update, bind, try_catch, assign, modify, arg, gets, lift, ret.
  cbn [fst snd].
  destruct (findOne term s) as [[p|x] s1]; cbn [fst snd]; [|reflexivity].
  rewrite <- (lower_name_normalizes dto).
  destruct (has_truthy_name dto); cbn [fst snd];
    destruct (Mongo.updateOne _ _ _ s1) as [[u|x] s2]; cbn [fst snd];
    try reflexivity; now rewrite handleExceptions_throws.
Qed.

Lemma remove_unfold id s :
  remove id s =
    match Mongo.deleteOne id s with
    | (Throw x, s1) => (Throw x, s1)
    | (Ok O, s1) => (Throw (NotFoundException (not_found_id id)), s1)
    | (Ok (S _), s1) => (Ok {| message := "Pokemon eliminado" |}, s1)
    end.
Proof.
  unfold remove, bind.
  destruct (Mongo.deleteOne id s) as [[[|n]|x] s1]; reflexivity.
Qed.

(** *** The sample stores are reached by creations *)

Lemma create_populated ds dto :
  Mongo.unique_violation (Some (sample_objectIds (List.length ds)))
    (Some (JS.toLowerCase (CreatePokemonDto.name dto)))
    (Some (CreatePokemonDto.no dto)) ds = None ->
  create (dto, populated ds) =
    (Ok (pokemon (List.length ds) (JS.toLowerCase (CreatePokemonDto.name dto))
           (CreatePokemonDto.no dto)),
     (lowered dto,
      populated (ds ++ [pokemon (List.length ds)
                          (JS.toLowerCase (CreatePokemonDto.name dto))
                          (CreatePokemonDto.no dto)]))).
Proof.
  intros V. rewrite create_unfold.
  unfold Mongo.create, bind, modify, gets, ret, throw, Mongo.round_trip. simpl.
  unfold JS.toLocaleLowerCase. rewrite V. simpl.
  unfold populated, pokemon.
  rewrite length_app, map_app, Nat.add_1_r. reflexivity.
Qed.

(** The scenario of the specification: two creations, two resolutions, and a
    creation that the unique index on the name rejects. *)
Example scenario :
  create (new_pokemon "bulbasaur" 1, empty_db)
  = (Ok bulbasaur, (new_pokemon "bulbasaur" 1, populated [bulbasaur]))
  /\ create (new_pokemon "ivysaur" 2, populated [bulbasaur])
     = (Ok ivysaur, (new_pokemon "ivysaur" 2, two_pokemon))
  /\ fst (findOne "1" two_pokemon) = Ok bulbasaur
  /\ fst (findOne "Ivysaur" two_pokemon) = Ok ivysaur
  /\ fst (create (new_pokemon "bulbasaur" 3, two_pokemon))
     = Throw (BadRequestException
                ("Pokemon already exists in db {" ++ JSON.quote ++ "name" ++ JSON.quote
                 ++ ":" ++ JSON.quote ++ "bulbasaur" ++ JSON.quote ++ "}")).
Proof.
  split; [|split; [|split; [|split]]].
  - apply (create_populated [] (new_pokemon "bulbasaur" 1)). reflexivity.
  - apply (create_populated [bulbasaur] (new_pokemon "ivysaur" 2)). reflexivity.
  - vm_compute; reflexivity.
  - vm_compute; reflexivity.
  - vm_compute; reflexivity.
Qed.

End ServiceFacts.

(** * The claims of the specification *)

Module Claims.
Import MongoFacts ServiceFacts.
Local Open Scope list_scope.

(** C1, as the specification states it, fails: "123" parses as an integer and
    is the ordinal of no record of [numeric_name], but [findOne] does not stop
    after the lookup by ordinal with NotFound; it goes on to the lookup by
    name, which finds the record named "123". *)
Lemma findOne_integer_term_reaches_name :
  JS.integer_literal "123" = true
  /\ healthy numeric_name
  /\ by_no "123" (Mongo.docs numeric_name) = None
  /\ fst (findOne "123" numeric_name) = Ok (pokemon 0 "123" 7)
  /\ ~ ordinal_strategy_only "123" numeric_name.
Proof.
  split; [vm_compute; reflexivity|]. split; [constructor|].
  split; [vm_compute; reflexivity|]. split; [vm_compute; reflexivity|].
  intros H. destruct H as (s' & E & _); [vm_compute; reflexivity|].
  apply (f_equal fst) in E. vm_compute in E. discriminate.
Qed.

(** C1, amended: for a term that parses fully as an integer, [findOne] tries
    the lookup by ordinal first, with one query.  When a record has that
    ordinal it is returned and nothing else is tried.  When none has, the
    lookup by identifier follows if the term has the shape of an identifier,
    then the lookup by name if nothing was found, each with one query, and
    NotFound is thrown only when these find nothing either. *)
Theorem findOne_integer_term term s :
  JS.integer_literal term = true ->
  healthy s ->
  exists s',
    unchanged s s' /\
    match find (Mongo.matches_no (JS.toNumber term)) (Mongo.docs s) with
    | Some p =>
        findOne term s = (Ok p, s')
        /\ Mongo.calls s' = Mongo.calls s ++ [Mongo.FindOneByNo (JS.toNumber term)]
    | None =>
        findOne term s =
          (match Mongo.or_else (by_id term (Mongo.docs s)) (by_name term (Mongo.docs s)) with
           | Some p => Ok p
           | None => Throw (NotFoundException (not_found_term term))
           end, s')
        /\ Mongo.calls s' =
             Mongo.calls s
             ++ Mongo.FindOneByNo (JS.toNumber term)
                :: (if Mongo.isValidObjectId term then [Mongo.FindById term] else [])
                ++ (if is_null (by_id term (Mongo.docs s))
                    then [Mongo.FindOneByName (JS.toLocaleLowerCase term)] else [])
    end.
Proof.
  intros Hint Hs.
  destruct (findOne_healthy term s Hs) as (s' & E & U & C).
  exists s'. split; trivial.
  unfold queries, by_no in *.
  rewrite (JSFacts.integer_literal_not_NaN term Hint) in *.
  destruct (find (Mongo.matches_no (JS.toNumber term)) (Mongo.docs s)) as [p|];
    simpl in *; auto.
Qed.

Lemma findOne_integer_term_witness :
  exists s',
    findOne "2" two_pokemon = (Ok ivysaur, s')
    /\ Mongo.calls s' = Mongo.calls two_pokemon ++ [Mongo.FindOneByNo (JS.toNumber "2")].
Proof.
  destruct (findOne_integer_term "2" two_pokemon) as (s' & _ & H);
    [vm_compute; reflexivity|constructor|].
  assert (F : find (Mongo.matches_no (JS.toNumber "2")) (Mongo.docs two_pokemon)
              = Some ivysaur) by (vm_compute; reflexivity).
  rewrite F in H. exists s'. exact H.
Defined.

(** C2, as the specification states it, fails: in a store where abra has the
    ordinal 123, the creation of a record named "123" with the ordinal 5 is
    valid and succeeds, but [findOne] on its name returns abra. *)
Lemma created_name_resolves_to_other :
  valid (new_pokemon "123" 5) = true
  /\ healthy abra_123
  /\ is_new (next_id 0 abra_123) abra_123 = true
  /\ create (new_pokemon "123" 5, abra_123)
     = (Ok (pokemon 1 "123" 5),
        (new_pokemon "123" 5, populated [pokemon 0 "abra" 123; pokemon 1 "123" 5]))
  /\ fst (findOne "123" (populated [pokemon 0 "abra" 123; pokemon 1 "123" 5]))
     = Ok (pokemon 0 "abra" 123)
  /\ ~ created_is_found (new_pokemon "123" 5) abra_123.
Proof.
  assert (E : create (new_pokemon "123" 5, abra_123)
              = (Ok (pokemon 1 "123" 5),
                 (new_pokemon "123" 5, populated [pokemon 0 "abra" 123; pokemon 1 "123" 5])))
    by (vm_compute; reflexivity).
  split; [vm_compute; reflexivity|]. split; [constructor|].
  split; [vm_compute; reflexivity|]. split; [exact E|].
  split; [vm_compute; reflexivity|].
  intros H.
  assert (L : JS.toLowerCase "123"
              = JS.toLowerCase (CreatePokemonDto.name (new_pokemon "123" 5)))
    by reflexivity.
  pose proof (H _ _ _ E "123" (or_intror (or_intror L))) as F.
  vm_compute in F. discriminate.
Qed.

(** C2, amended: after a [create] that succeeds with the record [p],
    [findOne] returns [p] for its ordinal in decimal digits (a positive safe
    integer); for its identifier, unless the identifier read as a number is
    the ordinal of another record; and for its name in any casing, unless
    that string read as a number is the ordinal of another record or is the
    identifier of another record. *)
Theorem create_then_findOne dto s p dto' s1 :
  healthy s ->
  Mongo.canonical (next_id 0 s) = true ->
  create (dto, s) = (Ok p, (dto', s1)) ->
  (0 < Pokemon.no p <= JS.MAX_SAFE_INTEGER ->
   fst (findOne (JSON.decimal (Pokemon.no p)) s1) = Ok p)
  /\ ((forall d, In d (Mongo.docs s1) ->
                Mongo.matches_no (JS.toNumber (Pokemon._id p)) d = true -> d = p) ->
      fst (findOne (Pokemon._id p) s1) = Ok p)
  /\ (forall term,
        JS.toLowerCase term = Pokemon.name p ->
        (forall d, In d (Mongo.docs s1) ->
                   Mongo.matches_no (JS.toNumber term) d = true -> d = p) ->
        (forall d, In d (Mongo.docs s1) -> Mongo.isValidObjectId term = true ->
                   Pokemon._id d = JS.toLowerCase term -> d = p) ->
        fst (findOne term s1) = Ok p).
Proof.
  intros Hs Hid E. rewrite create_unfold in E.
  destruct (Mongo.create _ _ s) as [[q|x] s0] eqn:C; inversion E; subst; clear E.
  destruct (create_ok _ _ _ _ _ C) as (Hp & V & D & _ & _ & _ & _ & Hh).
  specialize (Hh Hs).
  apply unique_violation_none in V as (Vid & Vname & Vno).
  pose proof (existsb_false _ _ _ Vid) as Nid.
  pose proof (existsb_false _ _ _ Vname) as Nname.
  pose proof (existsb_false _ _ _ Vno) as Nno.
  assert (Pid : Pokemon._id p = next_id 0 s)
    by (rewrite Hp; unfold next_id; simpl; now rewrite Nat.add_0_r).
  assert (Pname : Pokemon.name p = JS.toLowerCase (CreatePokemonDto.name dto))
    by now rewrite Hp.
  assert (Pno : Pokemon.no p = CreatePokemonDto.no dto) by now rewrite Hp.
  assert (Fno : find (Mongo.has_no (Pokemon.no p)) (Mongo.docs s1) = Some p).
  { rewrite D. apply find_last.
    - rewrite Pno. exact Nno.
    - unfold Mongo.has_no. apply Z.eqb_refl. }
  assert (Fid : find (Mongo.has_id (Pokemon._id p)) (Mongo.docs s1) = Some p).
  { rewrite D. apply find_last.
    - rewrite Hp. exact Nid.
    - unfold Mongo.has_id. apply String.eqb_refl. }
  assert (Fname : find (Mongo.has_name (Pokemon.name p)) (Mongo.docs s1) = Some p).
  { rewrite D. apply find_last.
    - rewrite Pname. exact Nname.
    - unfold Mongo.has_name. apply String.eqb_refl. }
  assert (Canon : Mongo.isValidObjectId (Pokemon._id p) = true
                  /\ JS.toLowerCase (Pokemon._id p) = Pokemon._id p).
  { rewrite Pid. unfold Mongo.canonical in Hid.
    apply andb_true_iff in Hid as [Hv Hl]. split; trivial.
    now apply String.eqb_eq. }
  destruct Canon as [Cv Cl].
  assert (R : forall term,
    fst (findOne term s1) =
      match Mongo.or_else (by_no term (Mongo.docs s1))
              (Mongo.or_else (by_id term (Mongo.docs s1)) (by_name term (Mongo.docs s1))) with
      | Some r => Ok r
      | None => Throw (NotFoundException (not_found_term term))
      end).
  { intros term. destruct (findOne_healthy term s1 Hh) as (s2 & F & _). now rewrite F. }
  split; [|split].
  - intros Hsafe. rewrite R. unfold by_no.
    rewrite (JSFacts.toNumber_decimal _ Hsafe). cbn [JS.isNaN].
    change (Mongo.matches_no (JS.Integer (Pokemon.no p)))
      with (Mongo.has_no (Pokemon.no p)).
    now rewrite Fno.
  - intros Hno. rewrite R.
    assert (Bno : by_no (Pokemon._id p) (Mongo.docs s1) = None
                  \/ by_no (Pokemon._id p) (Mongo.docs s1) = Some p).
    { unfold by_no. destruct (JS.isNaN _); auto. now apply find_unique. }
    assert (Bid : by_id (Pokemon._id p) (Mongo.docs s1) = Some p)
      by (unfold by_id; now rewrite Cv, Cl).
    destruct Bno as [-> | ->]; simpl; [now rewrite Bid|reflexivity].
  - intros term Hl Hno Hid'. rewrite R.
    assert (Bno : by_no term (Mongo.docs s1) = None \/ by_no term (Mongo.docs s1) = Some p).
    { unfold by_no. destruct (JS.isNaN _); auto. now apply find_unique. }
    assert (Bid : by_id term (Mongo.docs s1) = None \/ by_id term (Mongo.docs s1) = Some p).
    { unfold by_id. destruct (Mongo.isValidObjectId term) eqn:V; auto.
      apply find_unique. intros d Hd Hm. apply Hid'; trivial.
      unfold Mongo.has_id in Hm. now apply String.eqb_eq in Hm. }
    assert (Bname : by_name term (Mongo.docs s1) = Some p)
      by (unfold by_name, JS.toLocaleLowerCase; now rewrite Hl).
    destruct Bno as [-> | ->], Bid as [-> | ->]; simpl; trivial. now rewrite Bname.
Qed.

Lemma create_then_findOne_witness :
  fst (findOne (JSON.decimal 25) three_pokemon) = Ok pikachu
  /\ fst (findOne "64f1c0ffee0ddba11ca70002" three_pokemon) = Ok pikachu
  /\ fst (findOne "PikaCHU" three_pokemon) = Ok pikachu.
Proof.
  destruct (create_then_findOne (new_pokemon "Pikachu" 25) two_pokemon pikachu
              (new_pokemon "pikachu" 25) three_pokemon) as (A & B & C).
  - constructor.
  - vm_compute; reflexivity.
  - vm_compute; reflexivity.
  - split; [|split].
    + apply A. unfold JS.MAX_SAFE_INTEGER. simpl. lia.
    + apply B. intros d Hd. vm_compute. discriminate.
    + apply (C "PikaCHU"); [vm_compute; reflexivity| |].
      * intros d Hd. vm_compute. discriminate.
      * intros d Hd V. vm_compute in V. discriminate.
Defined.

(** C3, as the specification states it, fails: when the round trip of
    [deleteOne] fails on the network, [remove] lets the error of the store
    out as it is, not as Unavailable. *)
Lemma remove_store_error_untranslated :
  fst (remove "64f1c0ffee0ddba11ca70000" two_pokemon_offline)
  = Throw (StoreError NetworkError)
  /\ ~ store_error_translated (fst (remove "64f1c0ffee0ddba11ca70000" two_pokemon_offline)).
Proof.
  assert (E : fst (remove "64f1c0ffee0ddba11ca70000" two_pokemon_offline)
              = Throw (StoreError NetworkError)) by (vm_compute; reflexivity).
  split; [exact E|]. intros H. exact (H NetworkError E).
Qed.

(** C3, amended: in [create] and in [update] a failure of the write call is
    translated once, where the call returns: code 11000 becomes DuplicateKey
    (a BadRequestException), any other failure becomes Unavailable (an
    InternalServerErrorException) and is written to the console once.  What
    [findOne] throws inside [update], NotFound included, passes through
    unchanged, and so does what [deleteOne] throws inside [remove]: these
    store failures are not translated. *)
Theorem store_failure_translation :
  (forall x,
     (code_of x = Some 11000 ->
      translated x = BadRequestException
        ("Pokemon already exists in db " ++ JSON.stringify (keyValue_of x))%string
      /\ forall s, caught x s = s)
     /\ (code_of x <> Some 11000 ->
         translated x = InternalServerErrorException
           "Problemas con actualizar el pokemon - Chequear los logs"
         /\ forall s, caught x s = Mongo.console_log x s))
  /\ (forall dto s x s1,
        Mongo.create (JS.toLocaleLowerCase (CreatePokemonDto.name dto))
                     (CreatePokemonDto.no dto) s = (Throw x, s1) ->
        create (dto, s) = (Throw (translated x), (lowered dto, caught x s1)))
  /\ (forall term dto s p s1 x s2,
        findOne term s = (Ok p, s1) ->
        Mongo.updateOne p (option_map JS.toLowerCase (UpdatePokemonDto.name dto))
                          (UpdatePokemonDto.no dto) s1 = (Throw x, s2) ->
        update term (dto, s) = (Throw (translated x), (lower_name dto, caught x s2)))
  /\ (forall term dto s x s1,
        findOne term s = (Throw x, s1) ->
        update term (dto, s) = (Throw x, (dto, s1)))
  /\ (forall id s x s1,
        Mongo.deleteOne id s = (Throw x, s1) ->
        remove id s = (Throw x, s1)).
Proof.
  split; [|split; [|split; [|split]]].
  - intros x. unfold translated, caught. split.
    + intros ->. auto.
    + intros H. destruct (code_of x) as [z|]; auto.
      destruct z as [|p|p]; auto.
      repeat (destruct p as [p|p|]; auto). congruence.
  - intros dto s x s1 H. rewrite create_unfold. simpl. now rewrite H.
  - intros term dto s p s1 x s2 H1 H2. rewrite update_unfold, H1. simpl. now rewrite H2.
  - intros term dto s x s1 H. now rewrite update_unfold, H.
  - intros id s x s1 H. now rewrite remove_unfold, H.
Qed.

Lemma store_failure_translation_witness :
  fst (create (new_pokemon "Pikachu" 25, two_pokemon_offline))
  = Throw (InternalServerErrorException
             "Problemas con actualizar el pokemon - Chequear los logs")
  /\ Mongo.console (snd (snd (create (new_pokemon "Pikachu" 25, two_pokemon_offline))))
     = [StoreError NetworkError].
Proof.
  destruct store_failure_translation as (T & C & _).
  destruct (T (StoreError NetworkError)) as (_ & N).
  destruct N as [N1 N2]; [discriminate|].
  rewrite (C (new_pokemon "Pikachu" 25) two_pokemon_offline (StoreError NetworkError)
             (snd (Mongo.create "pikachu" 25 two_pokemon_offline)))
    by (vm_compute; reflexivity).
  rewrite N1, N2. split; reflexivity.
Defined.

(** C4: when the term resolves to the record [p], what [update] returns is
    the union of [p], as it was loaded, and of the fields supplied, the name
    in lower case; the write is the last call on the store, so the value is
    not read again after it. *)
Theorem update_returns_union term dto s p s1 :
  findOne term s = (Ok p, s1) ->
  (forall v dto' s2,
     update term (dto, s) = (Ok v, (dto', s2)) ->
     v = spread p (lower_name dto)
     /\ Mongo.calls s2 =
          Mongo.calls s1
          ++ [Mongo.UpdateOne (Pokemon._id p)
                (option_map JS.toLowerCase (UpdatePokemonDto.name dto))
                (UpdatePokemonDto.no dto)])
  /\ (forall u s2,
        Mongo.updateOne p (option_map JS.toLowerCase (UpdatePokemonDto.name dto))
                          (UpdatePokemonDto.no dto) s1 = (Ok u, s2) ->
        update term (dto, s) = (Ok (spread p (lower_name dto)), (lower_name dto, s2)))
  /\ spread p (lower_name dto) =
       {| Pokemon._id := Pokemon._id p;
          Pokemon.name := match UpdatePokemonDto.name dto with
                          | Some n => JS.toLowerCase n
                          | None => Pokemon.name p
                          end;
          Pokemon.no := match UpdatePokemonDto.no dto with
                        | Some o => o
                        | None => Pokemon.no p
                        end;
          Pokemon.__v := Pokemon.__v p |}.
Proof.
  intros F. split; [|split].
  - intros v dto' s2. rewrite update_unfold, F. simpl.
    destruct (Mongo.updateOne p _ _ s1) as [[u|x] s3] eqn:W; intros H; inversion H; subst.
    split; trivial. now apply updateOne_ok in W.
  - intros u s2 W. rewrite update_unfold, F. simpl. now rewrite W.
  - unfold spread, lower_name, Mongo.patch. simpl.
    now destruct (UpdatePokemonDto.name dto).
Qed.

Lemma update_returns_union_witness :
  fst (update "1" (rename "Bulbasaur-X", two_pokemon)) = Ok (pokemon 0 "bulbasaur-x" 1).
Proof.
  destruct (update_returns_union "1" (rename "Bulbasaur-X") two_pokemon bulbasaur
              (snd (findOne "1" two_pokemon))) as (_ & W & S);
    [vm_compute; reflexivity|].
  rewrite (W tt (snd (Mongo.updateOne bulbasaur (Some "bulbasaur-x"%string) None
                        (snd (findOne "1" two_pokemon)))))
    by (vm_compute; reflexivity).
  rewrite S. reflexivity.
Defined.

(** C5: from a store that answers and holds neither the name nor the
    ordinal of the first input, the first of two [create] calls succeeds and
    the second, whose input has the same ordinal or the same name up to
    casing, fails with DuplicateKey (a BadRequestException) whose message
    names a field of the input that a stored record already has; and a
    failure of the insertion with another code than 11000 surfaces as
    Unavailable (an InternalServerErrorException). *)
Theorem duplicate_create_rejected :
  (forall dto1 dto2 s,
     healthy s ->
     is_new (next_id 0 s) s = true ->
     is_new (next_id 1 s) s = true ->
     next_id 0 s <> next_id 1 s ->
     existsb (Mongo.has_name (JS.toLowerCase (CreatePokemonDto.name dto1))) (Mongo.docs s) = false ->
     existsb (Mongo.has_no (CreatePokemonDto.no dto1)) (Mongo.docs s) = false ->
     CreatePokemonDto.no dto2 = CreatePokemonDto.no dto1
     \/ JS.toLowerCase (CreatePokemonDto.name dto2) = JS.toLowerCase (CreatePokemonDto.name dto1) ->
     exists p s1,
       create (dto1, s) = (Ok p, (lowered dto1, s1))
       /\ exists field v s2,
           create (dto2, s1) =
             (Throw (BadRequestException
                       ("Pokemon already exists in db "
                        ++ JSON.stringify (Some [(field, v)]))%string),
              (lowered dto2, s2))
           /\ Mongo.docs s2 = Mongo.docs s1
           /\ (field = "name"%string
               /\ v = JSON.VString (JS.toLowerCase (CreatePokemonDto.name dto2))
               /\ existsb (Mongo.has_name (JS.toLowerCase (CreatePokemonDto.name dto2)))
                         (Mongo.docs s1) = true
               \/ field = "no"%string
                  /\ v = JSON.VNumber (CreatePokemonDto.no dto2)
                  /\ existsb (Mongo.has_no (CreatePokemonDto.no dto2)) (Mongo.docs s1) = true))
  /\ (forall dto s x s1,
        Mongo.create (JS.toLocaleLowerCase (CreatePokemonDto.name dto))
                     (CreatePokemonDto.no dto) s = (Throw x, s1) ->
        code_of x <> Some 11000 ->
        create (dto, s) =
          (Throw (InternalServerErrorException
                    "Problemas con actualizar el pokemon - Chequear los logs"),
           (lowered dto, Mongo.console_log x s1))).
Proof.
  split.
  - intros dto1 dto2 s Hs New0 New1 Ndiff Hname Hno Hsame.
    unfold is_new in New0, New1.
    apply andb_true_iff in New0 as [_ New0]. apply negb_true_iff in New0.
    apply andb_true_iff in New1 as [_ New1]. apply negb_true_iff in New1.
    unfold next_id in *. rewrite Nat.add_0_r in *. rewrite Nat.add_1_r in *.
    (* the first call *)
    destruct (create_healthy (JS.toLowerCase (CreatePokemonDto.name dto1))
                (CreatePokemonDto.no dto1) s Hs) as (s1 & C1 & Hs1).
    unfold Mongo.unique_violation, Mongo.violates, Mongo.or_else in C1.
    rewrite New0, Hname, Hno in C1.
    destruct (create_ok _ _ _ _ _ C1) as (_ & _ & D1 & O1 & G1 & _).
    exists (inserted (JS.toLowerCase (CreatePokemonDto.name dto1))
                     (CreatePokemonDto.no dto1) s), s1.
    split; [rewrite create_unfold; simpl; unfold JS.toLocaleLowerCase; now rewrite C1|].
    (* the second call *)
    destruct (create_healthy (JS.toLowerCase (CreatePokemonDto.name dto2))
                (CreatePokemonDto.no dto2) s1 Hs1) as (s2 & C2 & _).
    rewrite O1, G1, D1 in C2.
    unfold Mongo.unique_violation, Mongo.violates, Mongo.or_else in C2.
    rewrite !existsb_app in C2. simpl in C2. rewrite New1 in C2.
    assert (Hid : Mongo.has_id (Mongo.objectIds s (S (Mongo.generated s)))
                    (inserted (JS.toLowerCase (CreatePokemonDto.name dto1))
                              (CreatePokemonDto.no dto1) s) = false).
    { unfold Mongo.has_id. simpl. now apply String.eqb_neq. }
    rewrite Hid in C2. simpl in C2.
    rewrite D1, !existsb_app. simpl.
    set (ln2 := JS.toLowerCase (CreatePokemonDto.name dto2)) in *.
    set (p1 := inserted _ _ s) in *.
    destruct (existsb (Mongo.has_name ln2) (Mongo.docs s) || (Mongo.has_name ln2 p1 || false))
      eqn:En.
    + exists "name"%string, (JSON.VString ln2), s2.
      split; [|split; [|now left]].
      * rewrite create_unfold. simpl. unfold JS.toLocaleLowerCase. fold ln2.
        now rewrite C2.
      * destruct (create_throw _ _ _ _ _ C2) as (_ & D2 & _). now rewrite D2, D1.
    + assert (En' : existsb (Mongo.has_no (CreatePokemonDto.no dto2)) (Mongo.docs s)
                    || (Mongo.has_no (CreatePokemonDto.no dto2) p1 || false) = true).
      { destruct Hsame as [Ho|Hn].
        - subst p1. unfold Mongo.has_no at 2, inserted. cbn [Pokemon.no].
          rewrite Ho, Z.eqb_refl. now rewrite orb_true_r.
        - exfalso. apply orb_false_iff in En as [_ En].
          subst ln2 p1. unfold Mongo.has_name, inserted in En.
          cbn [Pokemon.name] in En.
          rewrite Hn, String.eqb_refl in En. discriminate. }
      rewrite En' in C2.
      exists "no"%string, (JSON.VNumber (CreatePokemonDto.no dto2)), s2.
      split; [|split; [|now right]].
      * rewrite create_unfold. simpl. unfold JS.toLocaleLowerCase. fold ln2.
        now rewrite C2.
      * destruct (create_throw _ _ _ _ _ C2) as (_ & D2 & _). now rewrite D2, D1.
  - intros dto s x s1 C Hcode. rewrite create_unfold. simpl. rewrite C.
    unfold translated, caught.
    destruct (code_of x) as [z|]; auto.
    destruct z as [|p|p]; auto.
    repeat (destruct p as [p|p|]; auto). congruence.
Qed.

Lemma duplicate_create_rejected_witness :
  exists p s1,
    create (new_pokemon "bulbasaur" 1, empty_db)
    = (Ok p, (lowered (new_pokemon "bulbasaur" 1), s1))
    /\ exists field v s2,
        create (new_pokemon "BulbaSaur" 3, s1) =
          (Throw (BadRequestException
                    ("Pokemon already exists in db "
                     ++ JSON.stringify (Some [(field, v)]))%string),
           (lowered (new_pokemon "BulbaSaur" 3), s2))
        /\ Mongo.docs s2 = Mongo.docs s1
        /\ (field = "name"%string
            /\ v = JSON.VString (JS.toLowerCase "BulbaSaur")
            /\ existsb (Mongo.has_name (JS.toLowerCase "BulbaSaur")) (Mongo.docs s1) = true
            \/ field = "no"%string
               /\ v = JSON.VNumber 3
               /\ existsb (Mongo.has_no 3) (Mongo.docs s1) = true).
Proof.
  destruct duplicate_create_rejected as [D _].
  apply (D (new_pokemon "bulbasaur" 1) (new_pokemon "BulbaSaur" 3) empty_db).
  - constructor.
  - vm_compute; reflexivity.
  - vm_compute; reflexivity.
  - vm_compute; discriminate.
  - reflexivity.
  - reflexivity.
  - right. vm_compute; reflexivity.
Defined.

(** C6: the name a successful [create] stores is the lower-case form of the
    name supplied, and so is the name a successful [update] stores when one is
    supplied; and whatever the outcome of [create], [update] and [remove], a
    store whose names are all in lower case stays so, while [findOne] leaves
    the documents alone. *)
Theorem stored_names_lower_case :
  (forall dto s p dto' s',
     create (dto, s) = (Ok p, (dto', s')) ->
     Mongo.docs s' = Mongo.docs s ++ [p]
     /\ Pokemon.name p = JS.toLowerCase (CreatePokemonDto.name dto)
     /\ JS.is_lower (Pokemon.name p) = true)
  /\ (forall term dto s v dto' s' n,
        update term (dto, s) = (Ok v, (dto', s')) ->
        UpdatePokemonDto.name dto = Some n ->
        (exists d, In d (Mongo.docs s') /\ Pokemon._id d = Pokemon._id v)
        /\ (forall d, In d (Mongo.docs s') -> Pokemon._id d = Pokemon._id v ->
                      Pokemon.name d = JS.toLowerCase n
                      /\ JS.is_lower (Pokemon.name d) = true))
  /\ (forall dto s r dto' s',
        create (dto, s) = (r, (dto', s')) ->
        names_lower (Mongo.docs s) -> names_lower (Mongo.docs s'))
  /\ (forall term dto s r dto' s',
        update term (dto, s) = (r, (dto', s')) ->
        names_lower (Mongo.docs s) -> names_lower (Mongo.docs s'))
  /\ (forall id s r s',
        remove id s = (r, s') ->
        names_lower (Mongo.docs s) -> names_lower (Mongo.docs s'))
  /\ (forall term s r s',
        findOne term s = (r, s') -> Mongo.docs s' = Mongo.docs s).
Proof.
  split; [|split; [|split; [|split; [|split]]]].
  - intros dto s p dto' s' H. rewrite create_unfold in H.
    destruct (Mongo.create _ _ s) as [[q|x] s1] eqn:C; inversion H; subst.
    destruct (create_ok _ _ _ _ _ C) as (Hp & _ & D & _).
    split; trivial. rewrite Hp. simpl. split; trivial.
    apply JSFacts.toLowerCase_is_lower.
  - intros term dto s v dto' s' n H Hn. rewrite update_unfold in H.
    destruct (findOne term s) as [[p|x] s1] eqn:F; [|discriminate].
    destruct (Mongo.updateOne p _ _ s1) as [[u|x] s2] eqn:W; inversion H; subst.
    destruct (updateOne_ok _ _ _ _ _ _ W) as (_ & _ & D & _).
    pose proof (findOne_ok_in _ _ _ _ F) as Hin.
    rewrite (same_docs _ _ (proj1 (reads_only_findOne _ _ _ _ F))) in D.
    unfold lower_name in D. simpl in D. rewrite Hn in D. simpl in D.
    assert (Hid : Pokemon._id (spread p (lower_name dto)) = Pokemon._id p) by reflexivity.
    rewrite Hid, D. split.
    + exists (Mongo.patch (Some (JS.toLowerCase n)) (UpdatePokemonDto.no dto) p).
      split; [|reflexivity].
      apply in_map_iff. exists p. split; trivial.
      unfold Mongo.has_id. now rewrite String.eqb_refl.
    + intros d Hd Hd'. apply in_map_iff in Hd as (d0 & <- & _).
      destruct (Mongo.has_id (Pokemon._id p) d0) eqn:X.
      * simpl. split; trivial. apply JSFacts.toLowerCase_is_lower.
      * unfold Mongo.has_id in X. apply String.eqb_neq in X. contradiction.
  - intros dto s r dto' s' H L. rewrite create_unfold in H.
    destruct (Mongo.create _ _ s) as [[q|x] s1] eqn:C; inversion H; subst.
    + destruct (create_ok _ _ _ _ _ C) as (Hp & _ & D & _).
      rewrite D. apply Forall_app. split; trivial.
      constructor; [|constructor]. rewrite Hp. simpl.
      apply JSFacts.toLowerCase_is_lower.
    + destruct (create_throw _ _ _ _ _ C) as (_ & D & _).
      now rewrite caught_docs, D.
  - intros term dto s r dto' s' H L. rewrite update_unfold in H.
    destruct (findOne term s) as [[p|x] s1] eqn:F.
    + pose proof (same_docs _ _ (proj1 (reads_only_findOne _ _ _ _ F))) as D1.
      destruct (Mongo.updateOne p _ _ s1) as [[u|x] s2] eqn:W; inversion H; subst.
      * destruct (updateOne_ok _ _ _ _ _ _ W) as (_ & _ & D & _).
        rewrite D, D1. apply names_lower_patch; trivial.
        unfold lower_name. simpl.
        destruct (UpdatePokemonDto.name dto); simpl; trivial.
        apply JSFacts.toLowerCase_is_lower.
      * destruct (updateOne_throw _ _ _ _ _ _ W) as (_ & D & _).
        now rewrite caught_docs, D, D1.
    + inversion H; subst.
      now rewrite (same_docs _ _ (proj1 (reads_only_findOne _ _ _ _ F))).
  - intros id s r s' H L. rewrite remove_unfold in H.
    destruct (Mongo.deleteOne id s) as [[n|x] s1] eqn:D.
    + destruct (deleteOne_ok _ _ _ _ D) as (_ & _ & _ & Hd).
      assert (s' = s1) as -> by (destruct n; now inversion H).
      destruct (existsb _ (Mongo.docs s)); destruct Hd as [_ ->]; trivial.
      now apply names_lower_remove_first.
    + inversion H; subst. destruct (deleteOne_throw _ _ _ _ D) as (_ & ->). trivial.
  - intros term s r s' F. apply (reads_only_findOne _ _ _ _ F).
Qed.

Lemma stored_names_lower_case_witness :
  (Mongo.docs three_pokemon = Mongo.docs two_pokemon ++ [pikachu]
   /\ Pokemon.name pikachu = JS.toLowerCase "Pikachu"
   /\ JS.is_lower (Pokemon.name pikachu) = true)
  /\ names_lower (Mongo.docs three_pokemon).
Proof.
  assert (E : create (new_pokemon "Pikachu" 25, two_pokemon)
              = (Ok pikachu, (new_pokemon "pikachu" 25, three_pokemon)))
    by (vm_compute; reflexivity).
  destruct stored_names_lower_case as (C & _ & I & _).
  split.
  - exact (C _ _ _ _ _ E).
  - apply (I _ _ _ _ _ E).
    repeat (constructor; [vm_compute; reflexivity|]). constructor.
Defined.

(** C7: when the term resolves to no record, so that [findOne] throws
    NotFound, [update] fails with the same NotFound; the documents are those
    of before, and the calls issued are reads, none a write. *)
Theorem update_not_found_before_write term dto s m s1 :
  findOne term s = (Throw (NotFoundException m), s1) ->
  update term (dto, s) = (Throw (NotFoundException m), (dto, s1))
  /\ Mongo.docs s1 = Mongo.docs s
  /\ exists tr, Mongo.calls s1 = Mongo.calls s ++ tr /\ forallb is_read tr = true.
Proof.
  intros F. split.
  - now rewrite update_unfold, F.
  - destruct (reads_only_findOne _ _ _ _ F) as (U & T). split; trivial. apply U.
Qed.

Lemma update_not_found_before_write_witness :
  update "mew" (rename "Mewtwo", two_pokemon)
  = (Throw (NotFoundException (not_found_term "mew")),
     (rename "Mewtwo", snd (findOne "mew" two_pokemon)))
  /\ Mongo.docs (snd (findOne "mew" two_pokemon)) = Mongo.docs two_pokemon
  /\ exists tr,
       Mongo.calls (snd (findOne "mew" two_pokemon)) = Mongo.calls two_pokemon ++ tr
       /\ forallb is_read tr = true.
Proof.
  apply (update_not_found_before_write "mew" (rename "Mewtwo") two_pokemon).
  vm_compute; reflexivity.
Defined.

(** C8: [remove] throws NotFound exactly when [deleteOne] answers that it
    deleted nothing, and the documents are then those of before; when a
    document was deleted, [remove] returns an acknowledgement that holds a
    message and no record, and the collection has lost that document.  On a
    store that answers, nothing is deleted exactly when no document has the
    identifier. *)
Theorem remove_not_found_iff_nothing_deleted id s :
  (forall r s',
     remove id s = (r, s') ->
     ((exists m, r = Throw (NotFoundException m))
      <-> fst (Mongo.deleteOne id s) = Ok 0%nat)
     /\ (fst (Mongo.deleteOne id s) = Ok 0%nat ->
         r = Throw (NotFoundException (not_found_id id))
         /\ Mongo.docs s' = Mongo.docs s)
     /\ (forall n, fst (Mongo.deleteOne id s) = Ok (S n) ->
         r = Ok {| message := "Pokemon eliminado" |}
         /\ Mongo.docs s' = Mongo.remove_first (Mongo.has_id (JS.toLowerCase id)) (Mongo.docs s)
         /\ List.length (Mongo.docs s) = S (List.length (Mongo.docs s'))))
  /\ (healthy s -> Mongo.isValidObjectId id = true ->
      fst (Mongo.deleteOne id s)
      = Ok (if existsb (Mongo.has_id (JS.toLowerCase id)) (Mongo.docs s)
            then 1%nat else 0%nat)).
Proof.
  split.
  - intros r s' H. rewrite remove_unfold in H.
    destruct (Mongo.deleteOne id s) as [[n|x] s1] eqn:D; simpl.
    + destruct (deleteOne_ok _ _ _ _ D) as (_ & _ & _ & Hd).
      destruct n as [|n]; inversion H; subst.
      * split; [split; eauto|]. split; [|discriminate].
        intros _. split; trivial.
        destruct (existsb _ (Mongo.docs s)); destruct Hd; [discriminate|trivial].
      * split; [split; [intros (m & Hm); discriminate|discriminate]|].
        split; [discriminate|]. intros n' _. split; trivial.
        destruct (existsb _ (Mongo.docs s)) eqn:X; destruct Hd as [Hn ->];
          [|discriminate].
        split; trivial. now apply remove_first_length.
    + inversion H; subst. destruct (deleteOne_throw _ _ _ _ D) as ((e & ->) & _).
      split; [split; [intros (m & Hm); discriminate|discriminate]|].
      split; discriminate.
  - intros Hs Hv. destruct (deleteOne_healthy id s Hs Hv) as (s1 & ->). reflexivity.
Qed.

Lemma remove_not_found_iff_nothing_deleted_witness :
  fst (remove "64f1c0ffee0ddba11ca70009" two_pokemon)
  = Throw (NotFoundException (not_found_id "64f1c0ffee0ddba11ca70009"))
  /\ fst (remove "64f1c0ffee0ddba11ca70001" two_pokemon)
     = Ok {| message := "Pokemon eliminado" |}
  /\ Mongo.docs (snd (remove "64f1c0ffee0ddba11ca70001" two_pokemon)) = [bulbasaur].
Proof.
  destruct (remove_not_found_iff_nothing_deleted "64f1c0ffee0ddba11ca70009" two_pokemon)
    as (R0 & _).
  destruct (R0 (fst (remove "64f1c0ffee0ddba11ca70009" two_pokemon))
               (snd (remove "64f1c0ffee0ddba11ca70009" two_pokemon)))
    as (_ & Z & _); [vm_compute; reflexivity|].
  destruct Z as [Z _]; [vm_compute; reflexivity|].
  destruct (remove_not_found_iff_nothing_deleted "64f1c0ffee0ddba11ca70001" two_pokemon)
    as (R1 & _).
  destruct (R1 (fst (remove "64f1c0ffee0ddba11ca70001" two_pokemon))
               (snd (remove "64f1c0ffee0ddba11ca70001" two_pokemon)))
    as (_ & _ & P); [vm_compute; reflexivity|].
  destruct (P 0%nat) as (P1 & P2 & _); [vm_compute; reflexivity|].
  split; [exact Z|]. split; [exact P1|].
  rewrite P2. vm_compute; reflexivity.
Defined.

(** C9: a page size left out is the configured default and an offset left
    out is 0; the records a list call returns are in ascending order of their
    ordinals and are records of the store; with the page size 3 and the
    offset 0, on a store whose ordinals are 1 to 5 in any order, they are the
    records with the ordinals 1, 2 and 3 in this order; and on a store that
    answers the call does return.  The query that is built carries the page
    size given, or else the configured default, the offset given, or else 0,
    and the ascending order of the ordinals; what the call returns is the
    collection in that order, without its first records up to the offset, cut
    at the page size. *)
Theorem findAll_defaults_and_order this :
  (forall o,
     findAll this {| PaginationDto.limit := None; PaginationDto.offset := o |}
     = findAll this {| PaginationDto.limit := Some (defaultLimit this);
                       PaginationDto.offset := o |})
  /\ (forall l,
        findAll this {| PaginationDto.limit := l; PaginationDto.offset := None |}
        = findAll this {| PaginationDto.limit := l; PaginationDto.offset := Some 0%nat |})
  /\ (forall dto s r s',
        Mongo.exec (findAll this dto) s = (Ok r, s') ->
        ascending r /\ incl r (Mongo.docs s))
  /\ (forall s r s',
        Permutation (ordinals (Mongo.docs s)) [1; 2; 3; 4; 5] ->
        Mongo.exec (findAll this first_three) s = (Ok r, s') ->
        ordinals r = [1; 2; 3] /\ incl r (Mongo.docs s))
  /\ (forall dto s,
        healthy s ->
        exists s',
          Mongo.exec (findAll this dto) s
          = (Ok (Mongo.page (findAll this dto) (Mongo.docs s)), s'))
  /\ (forall o,
        Mongo.q_limit (findAll this {| PaginationDto.limit := None;
                                       PaginationDto.offset := o |})
        = defaultLimit this)
  /\ (forall l o,
        Mongo.q_limit (findAll this {| PaginationDto.limit := Some l;
                                       PaginationDto.offset := o |}) = l)
  /\ (forall l,
        Mongo.q_skip (findAll this {| PaginationDto.limit := l;
                                      PaginationDto.offset := None |}) = 0%nat)
  /\ (forall l o,
        Mongo.q_skip (findAll this {| PaginationDto.limit := l;
                                      PaginationDto.offset := Some o |}) = o)
  /\ (forall dto, Mongo.q_sort (findAll this dto) = Mongo.Ascending)
  /\ (forall dto s r s',
        Mongo.exec (findAll this dto) s = (Ok r, s') ->
        r = (let rest :=
               skipn (match PaginationDto.offset dto with Some o => o | None => 0%nat end)
                     (Mongo.sort_by Z.leb (Mongo.docs s)) in
             match (match PaginationDto.limit dto with
                    | Some l => l
                    | None => defaultLimit this
                    end) with
             | O => rest
             | S n => firstn (S n) rest
             end)
        /\ Mongo.calls s' =
             Mongo.calls s
             ++ [Mongo.Find
                   (match PaginationDto.limit dto with
                    | Some l => l
                    | None => defaultLimit this
                    end)
                   (match PaginationDto.offset dto with Some o => o | None => 0%nat end)
                   Mongo.Ascending]).
Proof.
  split; [|split; [|split; [|split; [|split; [|split; [|split; [|split; [|split; [|split]]]]]]]]];
    try reflexivity.
  - intros dto s r s' E. apply query_ok in E. subst r.
    split; [apply page_ascending|apply page_incl].
  - intros s r s' P E. apply query_ok in E. subst r.
    split; [|apply page_incl].
    unfold Mongo.page, findAll, first_three. simpl Mongo.q_limit. simpl Mongo.q_skip.
    simpl Mongo.q_sort. cbn [skipn Mongo.ordered].
    unfold ordinals in *. rewrite <- firstn_map.
    assert (S5 : map Pokemon.no (Mongo.sort_by Z.leb (Mongo.docs s)) = [1; 2; 3; 4; 5]).
    { apply sorted_perm_eq.
      - apply sort_by_ascending.
      - repeat constructor; lia.
      - rewrite <- P. apply Permutation_map, sort_by_perm. }
    now rewrite S5.
  - intros dto s Hs.
    destruct (query_healthy _ (Mongo.Find (Mongo.q_limit (findAll this dto))
                                 (Mongo.q_skip (findAll this dto))
                                 (Mongo.q_sort (findAll this dto)))
                (Mongo.page (findAll this dto)) s Hs) as (s' & E & _).
    now exists s'.
  - intros dto s r s' E. split.
    + apply query_ok in E. subst r. unfold Mongo.page, findAll.
      cbn [Mongo.q_limit Mongo.q_skip Mongo.q_sort Mongo.sort_no Mongo.skip Mongo.limit
           Mongo.find_all Mongo.ordered].
      now destruct (match PaginationDto.limit dto with
                    | Some l => l
                    | None => defaultLimit this
                    end).
    + revert E. unfold Mongo.exec, bind, modify, gets, ret, Mongo.round_trip. simpl.
      destruct (Mongo.faults s) as [|[e|] fs]; simpl; intros E; inversion E; subst;
        reflexivity.
Qed.

Lemma findAll_defaults_and_order_witness :
  (ordinals (Mongo.page (findAll {| defaultLimit := 5 |} first_three)
               (Mongo.docs five_pokemon)) = [1; 2; 3]
   /\ incl (Mongo.page (findAll {| defaultLimit := 5 |} first_three)
              (Mongo.docs five_pokemon))
           (Mongo.docs five_pokemon))
  /\ Mongo.q_limit (findAll {| defaultLimit := 2 |}
                      {| PaginationDto.limit := None; PaginationDto.offset := None |})
     = 2%nat
  /\ Mongo.q_skip (findAll {| defaultLimit := 2 |}
                     {| PaginationDto.limit := None; PaginationDto.offset := None |})
     = 0%nat
  /\ ordinals (Mongo.page (findAll {| defaultLimit := 2 |}
                             {| PaginationDto.limit := None;
                                PaginationDto.offset := Some 1%nat |})
                 (Mongo.docs five_pokemon)) = [2; 3].
Proof.
  split; [|split; [|split]].
  - destruct (findAll_defaults_and_order {| defaultLimit := 5 |})
      as (_ & _ & _ & P & H & _).
    destruct (H first_three five_pokemon) as (s' & E); [constructor|].
    refine (P five_pokemon _ s' _ E).
    assert (O : ordinals (Mongo.docs five_pokemon) = [3; 1; 5; 2; 4])
      by (vm_compute; reflexivity).
    rewrite O.
    apply (Permutation_trans (l' := [1; 3; 5; 2; 4])); [apply perm_swap|].
    apply perm_skip.
    apply (Permutation_trans (l' := [3; 2; 5; 4])); [apply perm_skip, perm_swap|].
    apply (Permutation_trans (l' := [2; 3; 5; 4])); [apply perm_swap|].
    do 2 apply perm_skip. apply perm_swap.
  - destruct (findAll_defaults_and_order {| defaultLimit := 2 |})
      as (_ & _ & _ & _ & _ & L & _).
    apply (L None).
  - destruct (findAll_defaults_and_order {| defaultLimit := 2 |})
      as (_ & _ & _ & _ & _ & _ & _ & K & _).
    apply (K None).
  - destruct (findAll_defaults_and_order {| defaultLimit := 2 |})
      as (_ & _ & _ & _ & H & _ & _ & _ & _ & _ & R).
    destruct (H {| PaginationDto.limit := None; PaginationDto.offset := Some 1%nat |}
                five_pokemon) as (s' & E); [constructor|].
    destruct (R _ _ _ _ E) as (-> & _).
    vm_compute; reflexivity.
Defined.

(** C10, as stated, fails: when the term resolves to no record, [update]
    fails before it assigns to the object it received, which holds the name
    as the caller wrote it. *)
Lemma update_input_untouched_on_not_found :
  update "mew" (rename "MEWTWO", two_pokemon)
  = (Throw (NotFoundException (not_found_term "mew")),
     (rename "MEWTWO", snd (findOne "mew" two_pokemon)))
  /\ rename "MEWTWO" <> lower_name (rename "MEWTWO")
  /\ ~ update_input_normalized "mew" (rename "MEWTWO") two_pokemon.
Proof.
  assert (E : update "mew" (rename "MEWTWO", two_pokemon)
              = (Throw (NotFoundException (not_found_term "mew")),
                 (rename "MEWTWO", snd (findOne "mew" two_pokemon))))
    by (vm_compute; reflexivity).
  assert (N : rename "MEWTWO" <> lower_name (rename "MEWTWO"))
    by (vm_compute; discriminate).
  split; [exact E|]. split; [exact N|].
  intros H. exact (N (H _ _ _ E)).
Qed.

(** C10, amended: [create] assigns the lower-case name to the object it
    received before it inserts, so the object holds it whether the call
    returns or fails; [update] assigns the lower-case name to the object it
    received once the term is resolved, whether the write then succeeds or
    fails, and leaves the object as it was when the resolution fails. *)
Theorem inputs_assigned_in_place :
  (forall dto s r dto' s',
     create (dto, s) = (r, (dto', s')) ->
     dto' = {| CreatePokemonDto.name := JS.toLocaleLowerCase (CreatePokemonDto.name dto);
               CreatePokemonDto.no := CreatePokemonDto.no dto |})
  /\ (forall term dto s r dto' s',
        update term (dto, s) = (r, (dto', s')) ->
        match fst (findOne term s) with
        | Ok _ =>
            dto' = {| UpdatePokemonDto.name :=
                        option_map JS.toLowerCase (UpdatePokemonDto.name dto);
                      UpdatePokemonDto.no := UpdatePokemonDto.no dto |}
        | Throw _ => dto' = dto
        end).
Proof.
  split.
  - intros dto s r dto' s' H. rewrite create_unfold in H.
    destruct (Mongo.create _ _ s) as [[p|x] s1]; now inversion H.
  - intros term dto s r dto' s' H. rewrite update_unfold in H.
    destruct (findOne term s) as [[p|x] s1]; simpl.
    + destruct (Mongo.updateOne p _ _ s1) as [[u|x] s2]; now inversion H.
    + now inversion H.
Qed.

Lemma inputs_assigned_in_place_witness :
  fst (snd (create (new_pokemon "Pikachu" 25, two_pokemon_offline)))
  = new_pokemon "pikachu" 25
  /\ fst (snd (update "2" (rename "IVYSAUR", two_pokemon))) = rename "ivysaur".
Proof.
  destruct inputs_assigned_in_place as (C & U).
  split.
  - rewrite (C (new_pokemon "Pikachu" 25) two_pokemon_offline
               (fst (create (new_pokemon "Pikachu" 25, two_pokemon_offline)))
               (fst (snd (create (new_pokemon "Pikachu" 25, two_pokemon_offline))))
               (snd (snd (create (new_pokemon "Pikachu" 25, two_pokemon_offline)))))
      by (vm_compute; reflexivity).
    vm_compute; reflexivity.
  - pose proof (U "2" (rename "IVYSAUR") two_pokemon
                  (fst (update "2" (rename "IVYSAUR", two_pokemon)))
                  (fst (snd (update "2" (rename "IVYSAUR", two_pokemon))))
                  (snd (snd (update "2" (rename "IVYSAUR", two_pokemon))))) as H.
    assert (F : fst (findOne "2" two_pokemon) = Ok ivysaur) by (vm_compute; reflexivity).
    rewrite F in H. rewrite H by (vm_compute; reflexivity).
    vm_compute; reflexivity.
Defined.

End Claims.

(** * Further properties of the code *)

(** ** The configuration and the seed *)

Module ConfigFacts.
Local Open Scope list_scope.

(** X1: whatever the environment holds, the configuration has a port and a
    default page size that are neither NaN nor zero, and an environment name
    that is not empty. *)
Theorem EnvConfig_never_falsy env :
  truthy_number (Config.port (EnvConfig env)) = true
  /\ truthy_number (Config.defaultLimit (EnvConfig env)) = true
  /\ JS.truthy (Config.enviroment (EnvConfig env)) = true.
Proof.
  unfold EnvConfig, number_or, string_or. simpl.
  repeat split.
  - destruct (truthy_number (Number' (ProcessEnv.PORT env))) eqn:E; trivial.
  - destruct (truthy_number (Number' (ProcessEnv.DEFAULT_LIMIT env))) eqn:E; trivial.
  - destruct (ProcessEnv.NODE_ENV env) as [s|]; trivial.
    destruct (JS.truthy s) eqn:E; trivial.
Qed.

(** X2: a variable that is not set, or that does not convert to a number, or
    that converts to zero, gives the default (3000 for the port, 5 for the
    page size); a variable that holds the decimal digits of a positive safe
    integer gives that integer. *)
Theorem EnvConfig_numbers env :
  (truthy_number (Number' (ProcessEnv.PORT env)) = false ->
   Config.port (EnvConfig env) = JS.Integer 3000)
  /\ (truthy_number (Number' (ProcessEnv.DEFAULT_LIMIT env)) = false ->
      Config.defaultLimit (EnvConfig env) = JS.Integer 5)
  /\ (forall n, 0 < n <= JS.MAX_SAFE_INTEGER ->
        ProcessEnv.PORT env = Some (JSON.decimal n) ->
        Config.port (EnvConfig env) = JS.Integer n)
  /\ (forall n, 0 < n <= JS.MAX_SAFE_INTEGER ->
        ProcessEnv.DEFAULT_LIMIT env = Some (JSON.decimal n) ->
        Config.defaultLimit (EnvConfig env) = JS.Integer n).
Proof.
  unfold EnvConfig, number_or. simpl.
  split; [|split; [|split]].
  - now intros ->.
  - now intros ->.
  - intros n Hn ->. simpl. rewrite (JSFacts.toNumber_decimal n Hn).
    destruct n; try lia; reflexivity.
  - intros n Hn ->. simpl. rewrite (JSFacts.toNumber_decimal n Hn).
    destruct n; try lia; reflexivity.
Qed.

Lemma EnvConfig_numbers_witness :
  Config.port (EnvConfig {| ProcessEnv.NODE_ENV := None; ProcessEnv.MONGODB := None;
                            ProcessEnv.PORT := Some "abc";
                            ProcessEnv.DEFAULT_LIMIT := Some (JSON.decimal 20) |})
  = JS.Integer 3000
  /\ Config.defaultLimit
       (EnvConfig {| ProcessEnv.NODE_ENV := None; ProcessEnv.MONGODB := None;
                     ProcessEnv.PORT := Some "abc";
                     ProcessEnv.DEFAULT_LIMIT := Some (JSON.decimal 20) |})
     = JS.Integer 20.
Proof.
  destruct (EnvConfig_numbers
              {| ProcessEnv.NODE_ENV := None; ProcessEnv.MONGODB := None;
                 ProcessEnv.PORT := Some "abc";
                 ProcessEnv.DEFAULT_LIMIT := Some (JSON.decimal 20) |})
    as (P & _ & _ & D).
  split.
  - apply P. vm_compute; reflexivity.
  - apply (D 20); [unfold JS.MAX_SAFE_INTEGER; simpl; lia|reflexivity].
Defined.

(** X3: a service built on the configuration of an environment where
    DEFAULT_LIMIT is not set, or does not convert to a number, or converts to
    zero, lists five records at most when the caller gives no page size. *)
Theorem default_page_of_five env this dto s r s' :
  truthy_number (Number' (ProcessEnv.DEFAULT_LIMIT env)) = false ->
  constructor (EnvConfig env) = Some this ->
  PaginationDto.limit dto = None ->
  Mongo.exec (findAll this dto) s = (Ok r, s') ->
  defaultLimit this = 5%nat /\ (List.length r <= 5)%nat.
Proof.
  intros F C L E.
  unfold constructor, EnvConfig, number_or in C. simpl in C. rewrite F in C.
  simpl in C. inversion C; subst this. split; [reflexivity|].
  apply MongoFacts.query_ok in E. subst r.
  unfold Mongo.page, findAll. rewrite L. simpl Mongo.q_limit.
  cbv iota. apply firstn_le_length.
Qed.

Lemma default_page_of_five_witness :
  (List.length
     (Mongo.page (findAll {| defaultLimit := 5 |}
                    {| PaginationDto.limit := None; PaginationDto.offset := None |})
        (Mongo.docs five_pokemon)) <= 5)%nat.
Proof.
  refine (proj2 (default_page_of_five
            {| ProcessEnv.NODE_ENV := None; ProcessEnv.MONGODB := None;
               ProcessEnv.PORT := None; ProcessEnv.DEFAULT_LIMIT := None |}
            {| defaultLimit := 5 |}
            {| PaginationDto.limit := None; PaginationDto.offset := None |}
            five_pokemon _
            (snd (Mongo.exec (findAll {| defaultLimit := 5 |}
                    {| PaginationDto.limit := None; PaginationDto.offset := None |})
                    five_pokemon))
            _ _ _ _)); vm_compute; reflexivity.
Defined.

End ConfigFacts.

Module SeedFacts.
Import Seed.
Local Open Scope list_scope.

Lemma split_nonempty s : split s <> [].
Proof.
  destruct s as [|c r]; simpl; [discriminate|].
  destruct (Ascii.eqb c "/"); [discriminate|].
  destruct (split r); discriminate.
Qed.

Lemma split_no_slash w : no_slash w = true -> split w = [w].
Proof.
  induction w as [|c r IH]; simpl; [reflexivity|].
  intros H. apply andb_true_iff in H as [Hc Hr].
  apply negb_true_iff in Hc. now rewrite Hc, (IH Hr).
Qed.

Lemma split_slash a b : split (a ++ String "/" b)%string = split a ++ split b.
Proof.
  induction a as [|c r IH]; simpl; [reflexivity|].
  destruct (Ascii.eqb c "/"); [now rewrite IH|].
  rewrite IH. pose proof (split_nonempty r).
  now destruct (split r).
Qed.

Lemma digits_no_slash s : JS.all_digits s = true -> no_slash s = true.
Proof.
  induction s as [|c r IH]; simpl; [reflexivity|].
  intros H. apply andb_true_iff in H as [Hc Hr]. rewrite (IH Hr).
  JSFacts.each_char c; (reflexivity || discriminate).
Qed.

Lemma no_of_trailing_slash p w :
  no_slash w = true ->
  no_of (p ++ String "/" (w ++ "/"))%string = JS.toNumber w.
Proof.
  intros W. unfold no_of. rewrite split_slash.
  change (w ++ "/")%string with (w ++ String "/" "")%string.
  rewrite split_slash, (split_no_slash w W). simpl (split "").
  rewrite length_app. simpl List.length. rewrite Nat.add_comm. simpl.
  rewrite nth_error_app2 by lia. now rewrite Nat.sub_diag.
Qed.

Lemma decimal_no_slash n : 0 < n -> no_slash (JSON.decimal n) = true.
Proof.
  intros Hn. apply digits_no_slash.
  destruct n as [|p|p]; try lia.
  rewrite JSFacts.decimal_positive. apply JSFacts.string_of_uint_all_digits.
Qed.

(** X4: of a url that ends with a slash, the seed reads the segment before
    that slash as the ordinal, whatever comes before; when the segment is the
    decimal digits of a positive safe integer, the ordinal is that integer. *)
Theorem no_of_segment_before_last_slash p w :
  no_slash w = true ->
  no_of (p ++ String "/" (w ++ "/"))%string = JS.toNumber w
  /\ (forall n, 0 < n <= JS.MAX_SAFE_INTEGER -> w = JSON.decimal n ->
        no_of (p ++ String "/" (w ++ "/"))%string = JS.Integer n).
Proof.
  intros W. pose proof (no_of_trailing_slash p w W) as E.
  split; trivial.
  intros n Hn ->. rewrite E. now apply JSFacts.toNumber_decimal.
Qed.

Lemma no_of_segment_before_last_slash_witness :
  no_of ("https://pokeapi.co/api/v2/pokemon" ++ String "/" (JSON.decimal 25 ++ "/"))%string
  = JS.Integer 25.
Proof.
  apply (proj2 (no_of_segment_before_last_slash "https://pokeapi.co/api/v2/pokemon"
                  (JSON.decimal 25) ltac:(vm_compute; reflexivity)) 25).
  - unfold JS.MAX_SAFE_INTEGER. simpl. lia.
  - reflexivity.
Defined.

(** X5: the seed reads no ordinal from a url without a slash, and reads the
    segment before the last one from a url that does not end with a slash:
    the last segment is never what it reads. *)
Theorem no_of_ignores_last_segment :
  (forall u, no_slash u = true -> no_of u = JS.NaN)
  /\ (forall p w last,
        no_slash w = true -> no_slash last = true ->
        no_of (p ++ String "/" (w ++ String "/" last))%string = JS.toNumber w)
  /\ (forall last, no_slash last = true ->
        no_of (String "/" last) = JS.Integer 0).
Proof.
  split; [|split].
  - intros u U. unfold no_of. now rewrite (split_no_slash u U).
  - intros p w last W L. unfold no_of.
    rewrite !split_slash, (split_no_slash w W), (split_no_slash last L).
    rewrite length_app. simpl List.length. rewrite Nat.add_comm. simpl.
    rewrite nth_error_app2 by lia. now rewrite Nat.sub_diag.
  - intros last L. unfold no_of. simpl. now rewrite (split_no_slash last L).
Qed.

Lemma no_of_ignores_last_segment_witness :
  no_of "bulbasaur" = JS.NaN
  /\ no_of ("https://pokeapi.co/api/v2" ++ String "/" ("pokemon" ++ String "/" "25"))%string
     = JS.toNumber "pokemon".
Proof.
  destruct no_of_ignores_last_segment as (A & B & _).
  split.
  - apply A. vm_compute; reflexivity.
  - apply B; vm_compute; reflexivity.
Defined.

Lemma fold_logged results :
  forall console,
    snd (executeSeed results console)
    = console ++ flat_map (fun r => [NameUrl (name r) (url r);
                                     NameNo (name r) (no_of (url r))]) results.
Proof.
  unfold executeSeed. simpl.
  induction results as [|r rs IH]; intros console; simpl.
  - now rewrite app_nil_r.
  - rewrite IH, <- app_assoc. reflexivity.
Qed.

(** X6: the seed returns the results as the catalog gave them, writes two
    lines to the console for each, in their order, and the ordinals it writes
    for urls of the form base/n/ are the integers n. *)
Theorem executeSeed_logs results console :
  fst (executeSeed results console) = results
  /\ List.length (snd (executeSeed results console))
     = (List.length console + 2 * List.length results)%nat
  /\ (forall base ns,
        Forall (fun n => 0 < n <= JS.MAX_SAFE_INTEGER) ns ->
        map url results
        = map (fun n => (base ++ String "/" (JSON.decimal n ++ "/"))%string) ns ->
        flat_map (fun l => match l with NameNo _ x => [x] | NameUrl _ _ => [] end)
          (snd (executeSeed results []))
        = map JS.Integer ns).
Proof.
  split; [reflexivity|]. split.
  - rewrite fold_logged, length_app. f_equal.
    induction results as [|r rs IH]; simpl; [reflexivity|]. rewrite IH. lia.
  - intros base ns Hns. rewrite fold_logged. simpl.
    revert ns Hns. induction results as [|r rs IH]; intros [|n ns] Hns H;
      simpl in *; try discriminate; trivial.
    inversion H as [[Hu Hrest]]. inversion Hns as [|? ? Hn Hns']; subst.
    rewrite (IH ns Hns' Hrest). f_equal. rewrite Hu.
    rewrite (no_of_trailing_slash base _ (decimal_no_slash n (proj1 Hn))).
    now apply JSFacts.toNumber_decimal.
Qed.

Lemma executeSeed_logs_witness :
  flat_map (fun l => match l with NameNo _ x => [x] | NameUrl _ _ => [] end)
    (snd (executeSeed
            [ {| name := "bulbasaur";
                 url := ("https://pokeapi.co/api/v2/pokemon"
                         ++ String "/" (JSON.decimal 1 ++ "/"))%string |};
              {| name := "ivysaur";
                 url := ("https://pokeapi.co/api/v2/pokemon"
                         ++ String "/" (JSON.decimal 2 ++ "/"))%string |} ] []))
  = map JS.Integer [1; 2].
Proof.
  apply (proj2 (proj2 (executeSeed_logs _ [])) "https://pokeapi.co/api/v2/pokemon" [1; 2]).
  - repeat (constructor; [unfold JS.MAX_SAFE_INTEGER; simpl; lia|]). constructor.
  - reflexivity.
Defined.

End SeedFacts.

(** ** The service *)

Module ServiceProps.
Import MongoFacts ServiceFacts.
Local Open Scope list_scope.

(** *** Helpers *)

Lemma query_cases A c (f : list Pokemon.t -> A) s r s' :
  (modify (Mongo.record_call c);; Mongo.round_trip;; ds <- gets Mongo.docs;; ret (f ds)) s
  = (r, s') ->
  match r with
  | Ok v => v = f (Mongo.docs s)
  | Throw x => exists e, x = StoreError e
  end.
Proof.
  unfold bind, modify, gets, ret, Mongo.round_trip. simpl.
  destruct (Mongo.faults s) as [|[e|] fs]; simpl; intros H; inversion H; subst; eauto.
Qed.

Lemma findById_cases id s r s' :
  Mongo.findById id s = (r, s') ->
  match r with
  | Ok v => v = find (Mongo.has_id (JS.toLowerCase id)) (Mongo.docs s)
  | Throw x => exists e, x = StoreError e
  end.
Proof.
  unfold Mongo.findById, Mongo.castObjectId.
  destruct (Mongo.isValidObjectId id).
  - apply (query_cases _ (Mongo.FindById id) (find (Mongo.has_id (JS.toLowerCase id)))).
  - unfold bind, modify, throw. simpl. intros H. inversion H; subst. eauto.
Qed.

(** What [findOne] ends in, whatever the store does. *)
Lemma findOne_cases term s r s' :
  findOne term s = (r, s') ->
  match r with
  | Ok p =>
      In p (Mongo.docs s)
      /\ (JS.toNumber term = JS.Integer (Pokemon.no p)
          \/ (Mongo.isValidObjectId term = true /\ Pokemon._id p = JS.toLowerCase term)
          \/ Pokemon.name p = JS.toLowerCase term)
  | Throw x =>
      x = NotFoundException (not_found_term term) \/ exists e, x = StoreError e
  end.
Proof.
  set (good := fun p : Pokemon.t =>
    In p (Mongo.docs s)
    /\ (JS.toNumber term = JS.Integer (Pokemon.no p)
        \/ (Mongo.isValidObjectId term = true /\ Pokemon._id p = JS.toLowerCase term)
        \/ Pokemon.name p = JS.toLowerCase term)).
  unfold findOne, bind.
  destruct ((if negb (JS.isNaN (JS.toNumber term))
             then Mongo.findOne_no (JS.toNumber term) else ret None) s)
    as [[p1|x1] s1] eqn:E1.
  2:{ intros H. inversion H; subst. right.
      destruct (negb (JS.isNaN (JS.toNumber term))); [|discriminate].
      apply (query_cases _ _ _ _ _ _ E1). }
  assert (D1 : Mongo.docs s1 = Mongo.docs s /\ forall q, p1 = Some q -> good q).
  { destruct (negb (JS.isNaN (JS.toNumber term))).
    - split; [apply (reads_only_findOne_no _ _ _ _ E1)|].
      intros q ->. apply query_cases in E1. symmetry in E1.
      apply find_some in E1 as [I M]. split; trivial. left.
      unfold Mongo.matches_no in M. destruct (JS.toNumber term); try discriminate.
      unfold Mongo.has_no in M. apply Z.eqb_eq in M. now subst.
    - inversion E1; subst. split; trivial. discriminate. }
  destruct D1 as [D1 I1].
  destruct ((if is_null p1 && Mongo.isValidObjectId term
             then Mongo.findById term else ret p1) s1)
    as [[p2|x2] s2] eqn:E2.
  2:{ intros H. inversion H; subst. right.
      destruct (is_null p1 && Mongo.isValidObjectId term); [|discriminate].
      apply (findById_cases _ _ _ _ E2). }
  assert (D2 : Mongo.docs s2 = Mongo.docs s /\ forall q, p2 = Some q -> good q).
  { destruct (is_null p1 && Mongo.isValidObjectId term) eqn:C.
    - split; [rewrite <- D1; apply (reads_only_findById _ _ _ _ E2)|].
      intros q ->. apply findById_cases in E2. symmetry in E2.
      rewrite D1 in E2. apply find_some in E2 as [I M]. split; trivial.
      right; left. apply andb_true_iff in C as [_ V]. split; trivial.
      unfold Mongo.has_id in M. now apply String.eqb_eq in M.
    - inversion E2; subst. auto. }
  destruct D2 as [D2 I2].
  destruct ((if is_null p2 then Mongo.findOne_name (JS.toLocaleLowerCase term)
             else ret p2) s2)
    as [[p3|x3] s3] eqn:E3.
  2:{ intros H. inversion H; subst. right.
      destruct (is_null p2); [|discriminate].
      apply (query_cases _ _ _ _ _ _ E3). }
  assert (I3 : forall q, p3 = Some q -> good q).
  { destruct (is_null p2).
    - intros q ->. apply query_cases in E3. symmetry in E3.
      rewrite D2 in E3. apply find_some in E3 as [I M]. split; trivial.
      right; right. unfold Mongo.has_name in M. now apply String.eqb_eq in M.
    - inversion E3; subst. auto. }
  destruct p3 as [q|]; intros H; inversion H; subst; auto.
  now apply I3.
Qed.

(** X7: whatever [findOne] returns is a document of the store that the term
    denotes: its ordinal is the term read as a number, or its identifier is
    the term (an identifier, up to the case of its digits), or its name is
    the term in lower case. *)
Theorem findOne_returns_a_match term s p s' :
  findOne term s = (Ok p, s') ->
  In p (Mongo.docs s)
  /\ (JS.toNumber term = JS.Integer (Pokemon.no p)
      \/ (Mongo.isValidObjectId term = true /\ Pokemon._id p = JS.toLowerCase term)
      \/ Pokemon.name p = JS.toLowerCase term).
Proof. intros H. apply (findOne_cases _ _ _ _ H). Qed.

Lemma findOne_returns_a_match_witness :
  In ivysaur (Mongo.docs two_pokemon)
  /\ (JS.toNumber "IVYsaur" = JS.Integer (Pokemon.no ivysaur)
      \/ (Mongo.isValidObjectId "IVYsaur" = true
          /\ Pokemon._id ivysaur = JS.toLowerCase "IVYsaur")
      \/ Pokemon.name ivysaur = JS.toLowerCase "IVYsaur").
Proof.
  apply (findOne_returns_a_match "IVYsaur" two_pokemon ivysaur
           (snd (findOne "IVYsaur" two_pokemon))).
  vm_compute; reflexivity.
Defined.

Lemma find_none_iff A (f : A -> bool) l :
  find f l = None <-> forall x, In x l -> f x = false.
Proof.
  split; [intros H x; now apply find_none|].
  induction l as [|a l IH]; simpl; intros H; [reflexivity|].
  rewrite (H a) by now left. apply IH. intros x Hx. apply H. now right.
Qed.

Lemma by_no_none_iff term ds :
  by_no term ds = None
  <-> forall d, In d ds -> JS.toNumber term <> JS.Integer (Pokemon.no d).
Proof.
  unfold by_no.
  destruct (JS.toNumber term) as [|b|z|] eqn:N; simpl;
    try (split; [intros _ d _; discriminate|reflexivity]).
  - rewrite find_none_iff. split; intros H d Hd; [discriminate|reflexivity].
  - rewrite find_none_iff. unfold Mongo.has_no. split; intros H d Hd.
    + specialize (H d Hd). apply Z.eqb_neq in H. congruence.
    + apply Z.eqb_neq. intros E. apply (H d Hd). now rewrite E.
  - rewrite find_none_iff. split; intros H d Hd; [discriminate|reflexivity].
Qed.

Lemma by_id_none_iff term ds :
  by_id term ds = None
  <-> forall d, In d ds -> Mongo.isValidObjectId term = true ->
                Pokemon._id d <> JS.toLowerCase term.
Proof.
  unfold by_id. destruct (Mongo.isValidObjectId term).
  - rewrite find_none_iff. unfold Mongo.has_id. split; intros H d Hd.
    + intros _. now apply String.eqb_neq, H.
    + apply String.eqb_neq. auto.
  - split; [intros _ d _; discriminate|reflexivity].
Qed.

Lemma by_name_none_iff term ds :
  by_name term ds = None
  <-> forall d, In d ds -> Pokemon.name d <> JS.toLowerCase term.
Proof.
  unfold by_name, JS.toLocaleLowerCase. rewrite find_none_iff.
  unfold Mongo.has_name. split; intros H d Hd.
  - now apply String.eqb_neq, H.
  - apply String.eqb_neq. auto.
Qed.

(** X8: on a store that answers, [findOne] throws NotFound, with the term in
    the message, exactly when no document has the term read as a number for
    ordinal, none has the term for identifier when the term is an identifier,
    and none has the term in lower case for name. *)
Theorem findOne_not_found_iff term s :
  healthy s ->
  (fst (findOne term s) = Throw (NotFoundException (not_found_term term))
   <-> forall d, In d (Mongo.docs s) ->
         JS.toNumber term <> JS.Integer (Pokemon.no d)
         /\ (Mongo.isValidObjectId term = true -> Pokemon._id d <> JS.toLowerCase term)
         /\ Pokemon.name d <> JS.toLowerCase term).
Proof.
  intros Hs. destruct (findOne_healthy term s Hs) as (s' & E & _).
  rewrite E. simpl.
  pose proof (by_no_none_iff term (Mongo.docs s)) as Hno.
  pose proof (by_id_none_iff term (Mongo.docs s)) as Hid.
  pose proof (by_name_none_iff term (Mongo.docs s)) as Hname.
  destruct (by_no term (Mongo.docs s)) as [p|]; simpl.
  { split; [discriminate|]. intros H. exfalso.
    assert (Some p = None) by (apply Hno; intros d Hd; apply (H d Hd)). discriminate. }
  destruct (by_id term (Mongo.docs s)) as [p|]; simpl.
  { split; [discriminate|]. intros H. exfalso.
    assert (Some p = None) by (apply Hid; intros d Hd; apply (H d Hd)). discriminate. }
  destruct (by_name term (Mongo.docs s)) as [p|]; simpl.
  { split; [discriminate|]. intros H. exfalso.
    assert (Some p = None) by (apply Hname; intros d Hd; apply (H d Hd)). discriminate. }
  split; [|reflexivity]. intros _ d Hd.
  split; [now apply Hno|]. split; [intros V; now apply Hid|now apply Hname].
Qed.

Lemma findOne_not_found_iff_witness :
  fst (findOne "doesnotexist" two_pokemon)
  = Throw (NotFoundException (not_found_term "doesnotexist")).
Proof.
  apply (findOne_not_found_iff "doesnotexist" two_pokemon); [constructor|].
  intros d [<-|[<-|[]]]; vm_compute; repeat split; discriminate.
Defined.

(** X9: on a store that answers, [findOne] issues one query at least and
    three at most, and nothing but queries. *)
Theorem findOne_one_to_three_queries term s :
  healthy s ->
  exists tr,
    Mongo.calls (snd (findOne term s)) = Mongo.calls s ++ tr
    /\ (1 <= List.length tr <= 3)%nat
    /\ forallb is_read tr = true.
Proof.
  intros Hs. destruct (findOne_healthy term s Hs) as (s' & E & _ & C).
  exists (queries term (Mongo.docs s)). rewrite E. simpl. split; trivial.
  unfold queries, by_no, by_id.
  destruct (JS.isNaN (JS.toNumber term));
    [|destruct (find (Mongo.matches_no _) (Mongo.docs s))];
    destruct (Mongo.isValidObjectId term);
    try destruct (find (Mongo.has_id _) (Mongo.docs s));
    simpl; repeat split; trivial; lia.
Qed.

Lemma findOne_one_to_three_queries_witness :
  exists tr,
    Mongo.calls (snd (findOne "doesnotexist" two_pokemon)) = Mongo.calls two_pokemon ++ tr
    /\ (1 <= List.length tr <= 3)%nat
    /\ forallb is_read tr = true.
Proof.
  apply (findOne_one_to_three_queries "doesnotexist" two_pokemon). constructor.
Defined.

Lemma lower_char_hex c : JS.is_digit 16 (JS.lower_char c) = JS.is_digit 16 c.
Proof. JSFacts.each_char c; reflexivity. Qed.

Lemma isValidObjectId_lower t :
  Mongo.isValidObjectId (JS.toLowerCase t) = Mongo.isValidObjectId t.
Proof.
  unfold Mongo.isValidObjectId. f_equal.
  - f_equal. induction t; simpl; congruence.
  - induction t as [|c r IH]; simpl; [reflexivity|]. now rewrite lower_char_hex, IH.
Qed.

(** X10: on a store that answers, two terms with the same lower-case form
    that read as the same number resolve to the same record: the casing of a
    name, or of the digits of an identifier, does not matter. *)
Theorem findOne_any_casing t t' s :
  healthy s ->
  JS.toLowerCase t = JS.toLowerCase t' ->
  JS.toNumber t = JS.toNumber t' ->
  forall p, fst (findOne t s) = Ok p <-> fst (findOne t' s) = Ok p.
Proof.
  intros Hs L N p.
  destruct (findOne_healthy t s Hs) as (s1 & E1 & _).
  destruct (findOne_healthy t' s Hs) as (s2 & E2 & _).
  rewrite E1, E2. simpl.
  assert (V : Mongo.isValidObjectId t = Mongo.isValidObjectId t')
    by (rewrite <- (isValidObjectId_lower t), <- (isValidObjectId_lower t'); now rewrite L).
  unfold by_no, by_id, by_name, JS.toLocaleLowerCase. rewrite N, L, V.
  match goal with
  | |- (match ?x with _ => _ end) = _ <-> _ => destruct x
  end; split; intros H; inversion H; trivial.
Qed.

Lemma findOne_any_casing_witness :
  fst (findOne "IVYSAUR" two_pokemon) = Ok ivysaur.
Proof.
  apply (findOne_any_casing "ivysaur" "IVYSAUR" two_pokemon);
    [constructor|vm_compute; reflexivity..].
Defined.

(** X11: on a store that answers, a term that reads as an integer which is
    the ordinal of a record resolves to that record with a single query,
    however the number is spelled: with blanks around it, in hexadecimal, with
    an exponent. *)
Theorem findOne_by_number_spelling term z p s :
  healthy s ->
  JS.toNumber term = JS.Integer z ->
  find (Mongo.has_no z) (Mongo.docs s) = Some p ->
  exists s',
    findOne term s = (Ok p, s')
    /\ Mongo.calls s' = Mongo.calls s ++ [Mongo.FindOneByNo (JS.Integer z)].
Proof.
  intros Hs N F. destruct (findOne_healthy term s Hs) as (s' & E & _ & C).
  exists s'. unfold queries, by_no in *. rewrite N in *. simpl in *.
  change (find (Mongo.matches_no (JS.Integer z)) (Mongo.docs s))
    with (find (Mongo.has_no z) (Mongo.docs s)) in *.
  rewrite F in *. simpl in *. auto.
Qed.

Lemma findOne_by_number_spelling_witness :
  (exists s', findOne " 0x19 " three_pokemon = (Ok pikachu, s')
              /\ Mongo.calls s' = Mongo.calls three_pokemon
                                  ++ [Mongo.FindOneByNo (JS.Integer 25)])
  /\ (exists s', findOne "2.5e1" three_pokemon = (Ok pikachu, s')
                 /\ Mongo.calls s' = Mongo.calls three_pokemon
                                     ++ [Mongo.FindOneByNo (JS.Integer 25)]).
Proof.
  split.
  - apply (findOne_by_number_spelling " 0x19 " 25 pikachu three_pokemon);
      [constructor|vm_compute; reflexivity..].
  - apply (findOne_by_number_spelling "2.5e1" 25 pikachu three_pokemon);
      [constructor|vm_compute; reflexivity..].
Defined.

(** *** Failures *)

Lemma translated_kinds y :
  (exists m, translated y = BadRequestException m)
  \/ translated y
     = InternalServerErrorException "Problemas con actualizar el pokemon - Chequear los logs".
Proof.
  unfold translated.
  destruct (code_of y) as [z|]; auto.
  destruct z as [|p|p]; auto.
  repeat (destruct p as [p|p|]; auto). eauto.
Qed.

(** X12: an operation that is refused has written nothing.  After a
    [create] or an [update] that throws a BadRequestException, which is the
    answer to a duplicate key, after an [update] that throws NotFound and
    after a [remove] that throws NotFound, the documents are those of
    before. *)
Theorem refused_operation_writes_nothing :
  (forall dto s m dto' s',
     create (dto, s) = (Throw (BadRequestException m), (dto', s')) ->
     Mongo.docs s' = Mongo.docs s)
  /\ (forall term dto s m dto' s',
        update term (dto, s) = (Throw (BadRequestException m), (dto', s')) ->
        Mongo.docs s' = Mongo.docs s)
  /\ (forall term dto s m dto' s',
        update term (dto, s) = (Throw (NotFoundException m), (dto', s')) ->
        Mongo.docs s' = Mongo.docs s)
  /\ (forall id s m s',
        remove id s = (Throw (NotFoundException m), s') ->
        Mongo.docs s' = Mongo.docs s).
Proof.
  assert (U : forall term dto s x dto' s',
            update term (dto, s) = (Throw x, (dto', s')) -> Mongo.docs s' = Mongo.docs s).
  { intros term dto s x dto' s' H. rewrite update_unfold in H.
    destruct (findOne term s) as [[p|y] s1] eqn:F.
    + pose proof (same_docs _ _ (proj1 (reads_only_findOne _ _ _ _ F))) as D1.
      destruct (Mongo.updateOne p _ _ s1) as [[u|z] s2] eqn:W; inversion H; subst.
      destruct (updateOne_throw _ _ _ _ _ _ W) as (_ & D & _).
      now rewrite caught_docs, D.
    + inversion H; subst. apply (reads_only_findOne _ _ _ _ F). }
  split; [|split; [|split]].
  - intros dto s m dto' s' H. rewrite create_unfold in H.
    destruct (Mongo.create _ _ s) as [[p|y] s1] eqn:C; inversion H; subst.
    destruct (create_throw _ _ _ _ _ C) as (_ & D & _). now rewrite caught_docs.
  - intros term dto s m dto' s' H. apply (U _ _ _ _ _ _ H).
  - intros term dto s m dto' s' H. apply (U _ _ _ _ _ _ H).
  - intros id s m s' H. rewrite remove_unfold in H.
    destruct (Mongo.deleteOne id s) as [[n|y] s1] eqn:D.
    + destruct (deleteOne_ok _ _ _ _ D) as (_ & _ & _ & Hd).
      destruct n as [|n]; inversion H; subst.
      destruct (existsb _ (Mongo.docs s)); destruct Hd as [Hn Hd];
        [discriminate|trivial].
    + inversion H; subst. apply (deleteOne_throw _ _ _ _ D).
Qed.

Lemma refused_operation_writes_nothing_witness :
  Mongo.docs (snd (snd (create (new_pokemon "IVYSAUR" 7, two_pokemon))))
  = Mongo.docs two_pokemon
  /\ Mongo.docs (snd (remove "64f1c0ffee0ddba11ca70009" two_pokemon))
     = Mongo.docs two_pokemon.
Proof.
  destruct refused_operation_writes_nothing as (C & _ & _ & R).
  split.
  - apply (C (new_pokemon "IVYSAUR" 7) two_pokemon
             ("Pokemon already exists in db "
              ++ JSON.stringify (Some [("name"%string, JSON.VString "ivysaur")]))%string
             (fst (snd (create (new_pokemon "IVYSAUR" 7, two_pokemon))))).
    vm_compute; reflexivity.
  - apply (R "64f1c0ffee0ddba11ca70009" two_pokemon
             (not_found_id "64f1c0ffee0ddba11ca70009")).
    vm_compute; reflexivity.
Defined.

(** X13: what the operations throw.  [create] throws a BadRequestException or
    the InternalServerErrorException with the fixed message, never NotFound
    and never an error of the store as it is; [findOne] throws its NotFound
    or an error of the store; [update] throws what [findOne] throws or what
    [create] throws; [remove] throws its NotFound or an error of the store,
    never a BadRequestException. *)
Theorem thrown_exceptions :
  (forall dto s x dto' s',
     create (dto, s) = (Throw x, (dto', s')) ->
     (exists m, x = BadRequestException m)
     \/ x = InternalServerErrorException
              "Problemas con actualizar el pokemon - Chequear los logs")
  /\ (forall term s x s',
        findOne term s = (Throw x, s') ->
        x = NotFoundException (not_found_term term) \/ exists e, x = StoreError e)
  /\ (forall term dto s x dto' s',
        update term (dto, s) = (Throw x, (dto', s')) ->
        x = NotFoundException (not_found_term term)
        \/ (exists e, x = StoreError e)
        \/ (exists m, x = BadRequestException m)
        \/ x = InternalServerErrorException
                 "Problemas con actualizar el pokemon - Chequear los logs")
  /\ (forall id s x s',
        remove id s = (Throw x, s') ->
        x = NotFoundException (not_found_id id) \/ exists e, x = StoreError e).
Proof.
  split; [|split; [|split]].
  - intros dto s x dto' s' H. rewrite create_unfold in H.
    destruct (Mongo.create _ _ s) as [[p|y] s1]; inversion H; subst.
    apply translated_kinds.
  - intros term s x s' H. apply (findOne_cases _ _ _ _ H).
  - intros term dto s x dto' s' H. rewrite update_unfold in H.
    destruct (findOne term s) as [[p|y] s1] eqn:F.
    + destruct (Mongo.updateOne p _ _ s1) as [[u|z] s2]; inversion H; subst.
      right; right. apply translated_kinds.
    + inversion H; subst.
      destruct (findOne_cases _ _ _ _ F) as [->|E]; auto.
  - intros id s x s' H. rewrite remove_unfold in H.
    destruct (Mongo.deleteOne id s) as [[[|n]|y] s1] eqn:D; inversion H; subst; auto.
    right. apply (deleteOne_throw _ _ _ _ D).
Qed.

Lemma thrown_exceptions_witness :
  (exists m, fst (create (new_pokemon "IVYSAUR" 7, two_pokemon)) = Throw (BadRequestException m))
  \/ fst (create (new_pokemon "IVYSAUR" 7, two_pokemon))
     = Throw (InternalServerErrorException
                "Problemas con actualizar el pokemon - Chequear los logs").
Proof.
  destruct thrown_exceptions as (C & _).
  destruct (C (new_pokemon "IVYSAUR" 7) two_pokemon
              (BadRequestException
                 ("Pokemon already exists in db "
                  ++ JSON.stringify (Some [("name"%string, JSON.VString "ivysaur")])))
              (fst (snd (create (new_pokemon "IVYSAUR" 7, two_pokemon))))
              (snd (snd (create (new_pokemon "IVYSAUR" 7, two_pokemon)))))
    as [(m & E)|E]; [vm_compute; reflexivity| |].
  - left. exists m. rewrite <- E. vm_compute; reflexivity.
  - discriminate E.
Defined.

(** *** Updates *)

Lemma patched_ids id n o ds :
  map Pokemon._id (map (fun d => if Mongo.has_id id d then Mongo.patch n o d else d) ds)
  = map Pokemon._id ds.
Proof.
  rewrite map_map. apply map_ext. intros d. now destruct (Mongo.has_id id d).
Qed.

Lemma patched_others id n o ds d :
  Pokemon._id d <> id ->
  In d (map (fun d => if Mongo.has_id id d then Mongo.patch n o d else d) ds) <-> In d ds.
Proof.
  intros Hd. rewrite in_map_iff. split.
  - intros (d0 & E & I). destruct (Mongo.has_id id d0) eqn:X.
    + unfold Mongo.has_id in X. apply String.eqb_eq in X.
      subst d. simpl in Hd. contradiction.
    + now subst.
  - intros I. exists d. split; trivial.
    assert (Mongo.has_id id d = false) as -> by now apply String.eqb_neq. reflexivity.
Qed.

(** X14: [update] changes one document at most.  Whatever its outcome, the
    identifiers in the collection are those of before, in the same order; and
    when it returns a record, every document with another identifier is as
    it was. *)
Theorem update_touches_one_document term dto s r dto' s' :
  update term (dto, s) = (r, (dto', s')) ->
  map Pokemon._id (Mongo.docs s') = map Pokemon._id (Mongo.docs s)
  /\ (forall v, r = Ok v ->
        forall d, Pokemon._id d <> Pokemon._id v ->
                  (In d (Mongo.docs s') <-> In d (Mongo.docs s))).
Proof.
  intros H. rewrite update_unfold in H.
  destruct (findOne term s) as [[p|y] s1] eqn:F.
  - pose proof (same_docs _ _ (proj1 (reads_only_findOne _ _ _ _ F))) as D1.
    destruct (Mongo.updateOne p _ _ s1) as [[u|z] s2] eqn:W; inversion H; subst.
    + destruct (updateOne_ok _ _ _ _ _ _ W) as (_ & _ & D & _).
      rewrite D, D1. split; [apply patched_ids|].
      intros v V d Hd. inversion V; subst v. now apply patched_others.
    + destruct (updateOne_throw _ _ _ _ _ _ W) as (_ & D & _).
      rewrite caught_docs, D, D1. split; [reflexivity|discriminate].
  - inversion H; subst.
    rewrite (same_docs _ _ (proj1 (reads_only_findOne _ _ _ _ F))).
    split; [reflexivity|discriminate].
Qed.

Lemma update_touches_one_document_witness :
  map Pokemon._id (Mongo.docs (snd (snd (update "1" (rename "Bulbasaur-X", two_pokemon)))))
  = map Pokemon._id (Mongo.docs two_pokemon)
  /\ In ivysaur (Mongo.docs (snd (snd (update "1" (rename "Bulbasaur-X", two_pokemon))))).
Proof.
  destruct (update_touches_one_document "1" (rename "Bulbasaur-X") two_pokemon
              (Ok (pokemon 0 "bulbasaur-x" 1)) (rename "bulbasaur-x")
              (snd (snd (update "1" (rename "Bulbasaur-X", two_pokemon)))))
    as (I & O); [vm_compute; reflexivity|].
  split; trivial.
  apply (O _ eq_refl ivysaur); [vm_compute; discriminate|].
  right; left; reflexivity.
Defined.

(** X15: the record [update] returns is a document of the store after the
    write. *)
Theorem update_returns_stored_document term dto s v dto' s' :
  update term (dto, s) = (Ok v, (dto', s')) -> In v (Mongo.docs s').
Proof.
  intros H. rewrite update_unfold in H.
  destruct (findOne term s) as [[p|y] s1] eqn:F; [|discriminate].
  pose proof (same_docs _ _ (proj1 (reads_only_findOne _ _ _ _ F))) as D1.
  pose proof (findOne_ok_in _ _ _ _ F) as I.
  destruct (Mongo.updateOne p _ _ s1) as [[u|z] s2] eqn:W; inversion H; subst.
  destruct (updateOne_ok _ _ _ _ _ _ W) as (_ & _ & D & _).
  rewrite D, D1. apply in_map_iff. exists p. split; trivial.
  unfold Mongo.has_id. now rewrite String.eqb_refl.
Qed.

Lemma update_returns_stored_document_witness :
  In (pokemon 0 "bulbasaur-x" 1)
     (Mongo.docs (snd (snd (update "1" (rename "Bulbasaur-X", two_pokemon))))).
Proof.
  apply (update_returns_stored_document "1" (rename "Bulbasaur-X") two_pokemon
           (pokemon 0 "bulbasaur-x" 1) (rename "bulbasaur-x")).
  vm_compute; reflexivity.
Defined.

Lemma updateOne_healthy p n o s :
  healthy s ->
  exists s',
    Mongo.updateOne p n o s =
      (match (if existsb (Mongo.has_id (Pokemon._id p)) (Mongo.docs s)
              then Mongo.unique_violation None n o
                     (filter (fun d => negb (Mongo.has_id (Pokemon._id p) d)) (Mongo.docs s))
              else None) with
       | Some e => Throw (StoreError e)
       | None => Ok tt
       end, s').
Proof.
  unfold Mongo.updateOne, bind, modify, gets, ret, throw, Mongo.round_trip, healthy.
  simpl. intros F.
  destruct (Mongo.faults s) as [|[e|] fs] eqn:E; simpl;
    [| inversion F; discriminate |];
    destruct (existsb (Mongo.has_id (Pokemon._id p)) (Mongo.docs s)); simpl;
    try destruct (Mongo.unique_violation None n o _); simpl; eauto.
Qed.

Lemma patch_nothing ds id :
  map (fun d => if Mongo.has_id id d then Mongo.patch None None d else d) ds = ds.
Proof.
  induction ds as [|d ds IH]; simpl; [reflexivity|]. rewrite IH. f_equal.
  destruct (Mongo.has_id id d); trivial. now destruct d.
Qed.

(** X16: on a store that answers, [update] with a partial that holds neither
    a name nor an ordinal returns the record the term resolves to, as it is,
    and leaves the documents as they were. *)
Theorem update_with_nothing term s p s1 :
  healthy s ->
  findOne term s = (Ok p, s1) ->
  exists s2,
    update term ({| UpdatePokemonDto.name := None; UpdatePokemonDto.no := None |}, s)
    = (Ok p, ({| UpdatePokemonDto.name := None; UpdatePokemonDto.no := None |}, s2))
    /\ Mongo.docs s2 = Mongo.docs s.
Proof.
  intros Hs F.
  destruct (reads_only_findOne _ _ _ _ F) as (U & _).
  destruct (updateOne_healthy p None None s1 (stays_healthy _ _ U Hs)) as (s2 & W).
  assert (V : (if existsb (Mongo.has_id (Pokemon._id p)) (Mongo.docs s1)
               then Mongo.unique_violation None None None
                      (filter (fun d => negb (Mongo.has_id (Pokemon._id p) d)) (Mongo.docs s1))
               else None) = None) by (destruct (existsb _ _); reflexivity).
  rewrite V in W. exists s2. split.
  - rewrite update_unfold, F. simpl. rewrite W. now destruct p.
  - destruct (updateOne_ok _ _ _ _ _ _ W) as (_ & _ & D & _).
    now rewrite D, patch_nothing, (same_docs _ _ U).
Qed.

Lemma update_with_nothing_witness :
  exists s2,
    update "ivysaur"
      ({| UpdatePokemonDto.name := None; UpdatePokemonDto.no := None |}, two_pokemon)
    = (Ok ivysaur, ({| UpdatePokemonDto.name := None; UpdatePokemonDto.no := None |}, s2))
    /\ Mongo.docs s2 = Mongo.docs two_pokemon.
Proof.
  apply (update_with_nothing "ivysaur" two_pokemon ivysaur
           (snd (findOne "ivysaur" two_pokemon))); [constructor|].
  vm_compute; reflexivity.
Defined.

(** *** Deletions *)

Lemma remove_first_last f ds p :
  (forall x, In x ds -> f x = false) -> f p = true ->
  Mongo.remove_first f (ds ++ [p]) = ds.
Proof.
  intros H Hp. induction ds as [|d ds IH]; simpl.
  - now rewrite Hp.
  - rewrite (H d) by now left. f_equal. apply IH. intros x Hx. apply H. now right.
Qed.

Lemma remove_first_split f ds :
  existsb f ds = true ->
  exists l1 d l2,
    ds = l1 ++ d :: l2 /\ Mongo.remove_first f ds = l1 ++ l2
    /\ f d = true /\ forall x, In x l1 -> f x = false.
Proof.
  induction ds as [|a ds IH]; simpl; [discriminate|].
  destruct (f a) eqn:Fa; simpl.
  - intros _. exists [], a, ds. repeat split; trivial. intros x [].
  - intros H. destruct (IH H) as (l1 & d & l2 & E & R & Fd & L).
    exists (a :: l1), d, l2. simpl. rewrite E at 1. rewrite R.
    repeat split; trivial. intros x [<-|Hx]; auto.
Qed.

Lemma deleteOne_stays_healthy id s r s1 :
  Mongo.deleteOne id s = (r, s1) -> healthy s -> healthy s1.
Proof.
  unfold Mongo.deleteOne, Mongo.castObjectId, bind, modify, gets, ret, throw,
    Mongo.round_trip, healthy. simpl.
  destruct (Mongo.isValidObjectId id); simpl;
    [|intros H; inversion H; subst; trivial].
  destruct (Mongo.faults s) as [|[e|] fs] eqn:E; simpl;
    try destruct (existsb (Mongo.has_id (JS.toLowerCase id)) (Mongo.docs s)); simpl;
    intros H F; inversion H; subst; simpl; rewrite ?E; trivial; now inversion F.
Qed.

(** X17: on a store that answers, the [remove] of the identifier of a record
    that [create] has just returned succeeds, and the documents are again
    those of before the creation. *)
Theorem create_then_remove dto s p dto' s1 :
  healthy s ->
  Mongo.canonical (next_id 0 s) = true ->
  create (dto, s) = (Ok p, (dto', s1)) ->
  exists s2,
    remove (Pokemon._id p) s1 = (Ok {| message := "Pokemon eliminado" |}, s2)
    /\ Mongo.docs s2 = Mongo.docs s.
Proof.
  intros Hs Hid E. rewrite create_unfold in E.
  destruct (Mongo.create _ _ s) as [[q|x] s0] eqn:C; inversion E; subst; clear E.
  destruct (create_ok _ _ _ _ _ C) as (Hp & V & D & _ & _ & _ & _ & Hh).
  apply unique_violation_none in V as (Vid & _ & _).
  assert (Pid : Pokemon._id p = next_id 0 s)
    by (rewrite Hp; unfold next_id; simpl; now rewrite Nat.add_0_r).
  unfold Mongo.canonical in Hid. rewrite <- Pid in Hid.
  apply andb_true_iff in Hid as [Hv Hl]. apply String.eqb_eq in Hl.
  destruct (deleteOne_healthy (Pokemon._id p) s1 (Hh Hs) Hv) as (s2 & Dl).
  assert (X : existsb (Mongo.has_id (JS.toLowerCase (Pokemon._id p))) (Mongo.docs s1) = true).
  { rewrite D, existsb_app, Hl. simpl. unfold Mongo.has_id at 2.
    rewrite String.eqb_refl. now rewrite orb_true_r. }
  rewrite X in Dl. exists s2. split.
  - rewrite remove_unfold, Dl. reflexivity.
  - destruct (deleteOne_ok _ _ _ _ Dl) as (_ & _ & _ & R). rewrite X in R.
    destruct R as [_ ->]. rewrite D, Hl. apply remove_first_last.
    + rewrite Hp. simpl. now apply existsb_false.
    + unfold Mongo.has_id. apply String.eqb_refl.
Qed.

Lemma create_then_remove_witness :
  exists s2,
    remove (Pokemon._id pikachu) three_pokemon
    = (Ok {| message := "Pokemon eliminado" |}, s2)
    /\ Mongo.docs s2 = Mongo.docs two_pokemon.
Proof.
  apply (create_then_remove (new_pokemon "Pikachu" 25) two_pokemon pikachu
           (new_pokemon "pikachu" 25) three_pokemon);
    [constructor|vm_compute; reflexivity..].
Defined.

Lemma remove_first_gone id ds :
  NoDup (map Pokemon._id ds) ->
  existsb (Mongo.has_id id) (Mongo.remove_first (Mongo.has_id id) ds) = false.
Proof.
  induction ds as [|d ds IH]; simpl; [reflexivity|].
  intros N. inversion N as [|? ? Hd Hds]; subst.
  destruct (Mongo.has_id id d) eqn:X; simpl.
  - unfold Mongo.has_id in X. apply String.eqb_eq in X.
    destruct (existsb (Mongo.has_id id) ds) eqn:Y; trivial.
    apply existsb_exists in Y as (y & Hy & Fy).
    unfold Mongo.has_id in Fy. apply String.eqb_eq in Fy.
    exfalso. apply Hd. apply in_map_iff. exists y. split; [congruence|trivial].
  - rewrite X. simpl. now apply IH.
Qed.

(** X18: in a collection whose identifiers are distinct, on a store that
    answers, a second [remove] of an identifier that was removed throws
    NotFound and changes nothing. *)
Theorem remove_twice id s a s1 :
  healthy s ->
  NoDup (map Pokemon._id (Mongo.docs s)) ->
  remove id s = (Ok a, s1) ->
  exists s2,
    remove id s1 = (Throw (NotFoundException (not_found_id id)), s2)
    /\ Mongo.docs s2 = Mongo.docs s1.
Proof.
  intros Hs N R. rewrite remove_unfold in R.
  destruct (Mongo.deleteOne id s) as [[[|n]|x] s0] eqn:D; inversion R; subst.
  destruct (deleteOne_ok _ _ _ _ D) as (V & _ & _ & Hd).
  destruct (existsb _ (Mongo.docs s)); destruct Hd as [Hn Hd]; [|discriminate Hn].
  pose proof (deleteOne_stays_healthy _ _ _ _ D Hs) as Hs1.
  destruct (deleteOne_healthy id s1 Hs1 V) as (s2 & D2).
  rewrite Hd, remove_first_gone in D2 by trivial.
  exists s2. split.
  - rewrite remove_unfold, D2. reflexivity.
  - destruct (deleteOne_ok _ _ _ _ D2) as (_ & _ & _ & H2).
    rewrite Hd, remove_first_gone in H2 by trivial. rewrite Hd. apply H2.
Qed.

Lemma remove_twice_witness :
  exists s2,
    remove "64f1c0ffee0ddba11ca70001"
      (snd (remove "64f1c0ffee0ddba11ca70001" two_pokemon))
    = (Throw (NotFoundException (not_found_id "64f1c0ffee0ddba11ca70001")), s2)
    /\ Mongo.docs s2 = Mongo.docs (snd (remove "64f1c0ffee0ddba11ca70001" two_pokemon)).
Proof.
  apply (remove_twice "64f1c0ffee0ddba11ca70001" two_pokemon
           {| message := "Pokemon eliminado" |}).
  - constructor.
  - repeat (constructor; [vm_compute; intuition discriminate|]). constructor.
  - vm_compute; reflexivity.
Defined.

(** X19: a [remove] that succeeds takes out one document, the first that has
    the identifier (up to the case of its digits); the documents before it
    and after it stay, in their order. *)
Theorem remove_takes_out_one id s a s' :
  remove id s = (Ok a, s') ->
  exists l1 d l2,
    Mongo.docs s = l1 ++ d :: l2
    /\ Mongo.docs s' = l1 ++ l2
    /\ Pokemon._id d = JS.toLowerCase id
    /\ forall x, In x l1 -> Pokemon._id x <> JS.toLowerCase id.
Proof.
  intros R. rewrite remove_unfold in R.
  destruct (Mongo.deleteOne id s) as [[[|n]|x] s0] eqn:D; inversion R; subst.
  destruct (deleteOne_ok _ _ _ _ D) as (_ & _ & _ & Hd).
  destruct (existsb _ (Mongo.docs s)) eqn:X; destruct Hd as [Hn Hd]; [|discriminate Hn].
  destruct (remove_first_split _ _ X) as (l1 & d & l2 & E & Rm & Fd & L).
  exists l1, d, l2. rewrite Hd. repeat split; trivial.
  - unfold Mongo.has_id in Fd. now apply String.eqb_eq.
  - intros x Hx. specialize (L x Hx). unfold Mongo.has_id in L.
    now apply String.eqb_neq.
Qed.

Lemma remove_takes_out_one_witness :
  exists l1 d l2,
    Mongo.docs three_pokemon = l1 ++ d :: l2
    /\ Mongo.docs (snd (remove "64F1C0FFEE0DDBA11CA70001" three_pokemon)) = l1 ++ l2
    /\ Pokemon._id d = JS.toLowerCase "64F1C0FFEE0DDBA11CA70001"
    /\ forall x, In x l1 -> Pokemon._id x <> JS.toLowerCase "64F1C0FFEE0DDBA11CA70001".
Proof.
  apply (remove_takes_out_one "64F1C0FFEE0DDBA11CA70001" three_pokemon
           {| message := "Pokemon eliminado" |}).
  vm_compute; reflexivity.
Defined.

(** X20: [remove] of a string that is not an identifier does not throw
    NotFound: the cast of the filter fails before any round trip, and the
    error of the cast comes out as it is; nothing is deleted. *)
Theorem remove_of_malformed_identifier id s :
  Mongo.isValidObjectId id = false ->
  remove id s = (Throw (StoreError Mongo.CastError), Mongo.record_call (Mongo.DeleteOne id) s).
Proof.
  intros V. rewrite remove_unfold.
  unfold Mongo.deleteOne, Mongo.castObjectId, bind, modify, throw. simpl.
  now rewrite V.
Qed.

Lemma remove_of_malformed_identifier_witness :
  remove "pikachu" two_pokemon
  = (Throw (StoreError Mongo.CastError),
     Mongo.record_call (Mongo.DeleteOne "pikachu") two_pokemon).
Proof.
  apply (remove_of_malformed_identifier "pikachu" two_pokemon).
  vm_compute; reflexivity.
Defined.

(** *** Pages *)

Lemma sort_by_length le ds : List.length (Mongo.sort_by le ds) = List.length ds.
Proof. apply Permutation_length, sort_by_perm. Qed.

(** X21: the number of records a list call returns: what is left of the
    collection after the offset, cut at the page size unless the page size
    is 0, which is no limit. *)
Theorem page_length this dto s r s' :
  Mongo.exec (findAll this dto) s = (Ok r, s') ->
  List.length r =
    match (match PaginationDto.limit dto with Some l => l | None => defaultLimit this end) with
    | O => (List.length (Mongo.docs s)
            - match PaginationDto.offset dto with Some o => o | None => 0 end)%nat
    | S l => Nat.min (S l)
               (List.length (Mongo.docs s)
                - match PaginationDto.offset dto with Some o => o | None => 0 end)
    end.
Proof.
  intros E. apply query_ok in E. subst r.
  unfold Mongo.page, findAll. simpl Mongo.q_limit. simpl Mongo.q_skip.
  simpl Mongo.q_sort. cbn [Mongo.ordered].
  destruct (match PaginationDto.limit dto with Some l => l | None => defaultLimit this end)
    as [|l].
  - now rewrite length_skipn, sort_by_length.
  - now rewrite length_firstn, length_skipn, sort_by_length.
Qed.

Lemma page_length_witness :
  List.length (Mongo.page (findAll {| defaultLimit := 5 |} first_three)
                 (Mongo.docs five_pokemon)) = 3%nat.
Proof.
  apply (page_length {| defaultLimit := 5 |} first_three five_pokemon _
           (snd (Mongo.exec (findAll {| defaultLimit := 5 |} first_three) five_pokemon))).
  vm_compute; reflexivity.
Defined.

Lemma firstn_then_firstn A (x : list A) :
  forall l l', firstn l x ++ firstn l' (skipn l x) = firstn (l + l') x.
Proof.
  induction x as [|a x IH]; intros l l'.
  - now rewrite skipn_nil, !firstn_nil.
  - destruct l as [|l]; simpl; [reflexivity|]. now rewrite IH.
Qed.

(** X22: two pages that follow each other make up the page of their sizes
    together: the page of [l] records from the offset [o], followed by the
    page of [l'] records from the offset [o + l], is the page of [l + l']
    records from the offset [o]. *)
Theorem consecutive_pages this l l' o ds :
  l <> 0%nat -> l' <> 0%nat ->
  Mongo.page (findAll this {| PaginationDto.limit := Some l;
                              PaginationDto.offset := Some o |}) ds
  ++ Mongo.page (findAll this {| PaginationDto.limit := Some l';
                                 PaginationDto.offset := Some (o + l)%nat |}) ds
  = Mongo.page (findAll this {| PaginationDto.limit := Some (l + l')%nat;
                                PaginationDto.offset := Some o |}) ds.
Proof.
  intros Hl Hl'.
  destruct l as [|l]; [contradiction|]. destruct l' as [|l']; [contradiction|].
  unfold Mongo.page, findAll.
  cbn [Mongo.q_limit Mongo.q_skip Mongo.q_sort Mongo.sort_no Mongo.skip Mongo.limit
       Mongo.find_all PaginationDto.limit PaginationDto.offset Mongo.ordered Nat.add].
  rewrite (Nat.add_comm o (S l)), <- skipn_skipn.
  exact (firstn_then_firstn _ (skipn o (Mongo.sort_by Z.leb ds)) (S l) (S l')).
Qed.

Lemma consecutive_pages_witness :
  ordinals (Mongo.page (findAll {| defaultLimit := 5 |}
                          {| PaginationDto.limit := Some 2%nat;
                             PaginationDto.offset := Some 0%nat |})
              (Mongo.docs five_pokemon))
  ++ ordinals (Mongo.page (findAll {| defaultLimit := 5 |}
                             {| PaginationDto.limit := Some 3%nat;
                                PaginationDto.offset := Some 2%nat |})
                 (Mongo.docs five_pokemon))
  = [1; 2; 3; 4; 5].
Proof.
  unfold ordinals. rewrite <- map_app.
  change (Some 2%nat) with (Some (0 + 2)%nat) at 2.
  rewrite (consecutive_pages {| defaultLimit := 5 |} 2 3 0 (Mongo.docs five_pokemon))
    by discriminate.
  vm_compute; reflexivity.
Defined.

(** X23: a list call from the offset 0 with no limit, or with a page size
    that covers the collection, returns every record of the store once. *)
Theorem whole_listing this dto s r s' :
  Mongo.exec (findAll this dto) s = (Ok r, s') ->
  match PaginationDto.offset dto with Some o => o | None => 0%nat end = 0%nat ->
  match PaginationDto.limit dto with Some l => l | None => defaultLimit this end = 0%nat
  \/ (List.length (Mongo.docs s)
      <= match PaginationDto.limit dto with Some l => l | None => defaultLimit this end)%nat ->
  Permutation r (Mongo.docs s).
Proof.
  intros E O L. apply query_ok in E. subst r.
  unfold Mongo.page, findAll. simpl Mongo.q_limit. simpl Mongo.q_skip.
  simpl Mongo.q_sort. cbn [Mongo.ordered]. rewrite O. simpl skipn.
  destruct (match PaginationDto.limit dto with Some l => l | None => defaultLimit this end)
    as [|l] eqn:El.
  - apply sort_by_perm.
  - destruct L as [L|L]; [discriminate|].
    rewrite firstn_all2 by now rewrite sort_by_length.
    apply sort_by_perm.
Qed.

Lemma whole_listing_witness :
  Permutation
    (Mongo.page (findAll {| defaultLimit := 5 |}
                   {| PaginationDto.limit := None; PaginationDto.offset := None |})
       (Mongo.docs five_pokemon))
    (Mongo.docs five_pokemon).
Proof.
  apply (whole_listing {| defaultLimit := 5 |}
           {| PaginationDto.limit := None; PaginationDto.offset := None |}
           five_pokemon _
           (snd (Mongo.exec (findAll {| defaultLimit := 5 |}
                   {| PaginationDto.limit := None; PaginationDto.offset := None |})
                   five_pokemon))).
  - vm_compute; reflexivity.
  - reflexivity.
  - right. vm_compute. repeat constructor.
Defined.

(** *** A new name is found *)

Lemma find_patched id ln o ds p :
  NoDup (map Pokemon._id ds) ->
  In p ds -> Pokemon._id p = id ->
  (forall d, In d ds -> Mongo.has_id id d = false -> Mongo.has_name ln d = false) ->
  find (Mongo.has_name ln)
       (map (fun d => if Mongo.has_id id d then Mongo.patch (Some ln) o d else d) ds)
  = Some (Mongo.patch (Some ln) o p).
Proof.
  intros N I Hp H. induction ds as [|d r IH]; [contradiction|].
  inversion N as [|? ? Hd Hr]; subst. simpl.
  destruct (Mongo.has_id (Pokemon._id p) d) eqn:X.
  - unfold Mongo.has_name at 1. simpl. rewrite String.eqb_refl.
    destruct I as [->|I]; trivial.
    exfalso. apply Hd. unfold Mongo.has_id in X. apply String.eqb_eq in X.
    rewrite X. now apply in_map.
  - rewrite (H d) by (trivial; now left).
    destruct I as [->|I].
    + unfold Mongo.has_id in X. now rewrite String.eqb_refl in X.
    + apply IH; trivial. intros y Hy. apply H. now right.
Qed.

Lemma no_name_violation n o ds :
  Mongo.unique_violation None (Some n) o ds = None ->
  existsb (Mongo.has_name n) ds = false.
Proof.
  unfold Mongo.unique_violation, Mongo.violates, Mongo.or_else.
  now destruct (existsb (Mongo.has_name n) ds).
Qed.

(** X24: in a collection whose identifiers are distinct, after an [update]
    that returns and that gave a name which reads as no number and is no
    identifier, [findOne] on that name, in any casing, returns the record
    that [update] returned, while the store answers. *)
Theorem update_then_findOne_by_name term dto s v dto' s' n :
  NoDup (map Pokemon._id (Mongo.docs s)) ->
  update term (dto, s) = (Ok v, (dto', s')) ->
  healthy s' ->
  UpdatePokemonDto.name dto = Some n ->
  forall t,
    JS.toLowerCase t = JS.toLowerCase n ->
    JS.isNaN (JS.toNumber t) = true ->
    Mongo.isValidObjectId t = false ->
    fst (findOne t s') = Ok v.
Proof.
  intros N H Hs' Hn t Lt Nt Vt. rewrite update_unfold in H.
  destruct (findOne term s) as [[p|y] s1] eqn:F; [|discriminate].
  pose proof (same_docs _ _ (proj1 (reads_only_findOne _ _ _ _ F))) as D1.
  pose proof (findOne_ok_in _ _ _ _ F) as I.
  destruct (Mongo.updateOne p _ _ s1) as [[u|z] s2] eqn:W; inversion H; subst.
  destruct (updateOne_ok _ _ _ _ _ _ W) as (_ & _ & D & V).
  rewrite D1 in D, V.
  assert (X : existsb (Mongo.has_id (Pokemon._id p)) (Mongo.docs s) = true).
  { apply existsb_exists. exists p. split; trivial.
    unfold Mongo.has_id. apply String.eqb_refl. }
  specialize (V X). unfold lower_name in V, D. simpl in V, D. rewrite Hn in V, D.
  simpl in V, D. apply no_name_violation in V.
  destruct (findOne_healthy t s' Hs') as (s3 & E & _). rewrite E. simpl.
  unfold by_no, by_id, by_name, JS.toLocaleLowerCase. rewrite Nt, Vt, Lt, D. simpl.
  rewrite (find_patched (Pokemon._id p) (JS.toLowerCase n) (UpdatePokemonDto.no dto)
             (Mongo.docs s) p N I eq_refl).
  - unfold spread, lower_name. simpl. now rewrite Hn.
  - intros d Hd Xd. apply (existsb_false _ _ _ V).
    apply filter_In. split; trivial. now rewrite Xd.
Qed.

Lemma update_then_findOne_by_name_witness :
  fst (findOne "BULBASAUR-x"
         (snd (snd (update "1" (rename "Bulbasaur-X", two_pokemon)))))
  = Ok (pokemon 0 "bulbasaur-x" 1).
Proof.
  apply (update_then_findOne_by_name "1" (rename "Bulbasaur-X") two_pokemon
           (pokemon 0 "bulbasaur-x" 1) (rename "bulbasaur-x")
           (snd (snd (update "1" (rename "Bulbasaur-X", two_pokemon))))
           "Bulbasaur-X").
  - repeat (constructor; [vm_compute; intuition discriminate|]). constructor.
  - vm_compute; reflexivity.
  - constructor.
  - reflexivity.
  - vm_compute; reflexivity.
  - vm_compute; reflexivity.
  - vm_compute; reflexivity.
Defined.

End ServiceProps.
